(** * py_email_relay: the PDF consolidation policy and the relay of one message

    A shallow embedding of [EmailRelay.merge_pdfs] and [EmailRelay.relay_email]
    of [email_relay.py].  Python values are modelled as follows.

    - [str] is [string]; comparison of two [str] is the lexicographic order on
      character codes ([String.ltb]), [a in b] is the substring test.
    - [bytes] is [list byte].
    - an exception is a value of [exn]; a computation that may raise returns an
      [outcome].
    - the file system is a finite map from path to contents; directories are
      not part of it, and whether a path can be opened for writing is asked
      of the environment.
    - [list.sort(key=...)] and [sorted(..., key=...)] are stable sorts that
      compare keys with [<] only; they are modelled by a stable insertion
      sort, which computes the same list for every total order. *)

From Stdlib Require Import String Ascii Sorting.Sorted Sorting.Permutation.
From stdpp Require Import base option list sorting gmap strings fin_maps pretty infinite.

Open Scope nat_scope.
Set Warnings "-register-all".

(** ** Exceptions *)

Inductive exn : Type :=
  | IndexError
  | TypeError
  | DecodeError
  | AttributeError
  | PdfReadError
  | FileNotFoundError
  | SMTPException.

Inductive outcome (A : Type) : Type :=
  | Ok (a : A)
  | Raise (e : exn).
Arguments Ok {A} a.
Arguments Raise {A} e.

Definition outcome_bind {A B} (f : A -> outcome B) (m : outcome A) : outcome B :=
  match m with
  | Ok a => f a
  | Raise e => Raise e
  end.

#[global] Instance outcome_ret : MRet outcome := fun A a => Ok a.
#[global] Instance outcome_mbind : MBind outcome := fun A B f m => outcome_bind f m.

(** [l[i]] with a non-negative index: [IndexError] out of range. *)
Definition index {A} (l : list A) (i : nat) : outcome A :=
  match l !! i with
  | Some x => Ok x
  | None => Raise IndexError
  end.

(** [[f(x) for x in l]], stopping at the first exception. *)
Fixpoint comprehension {A B} (f : A -> outcome B) (l : list A) : outcome (list B) :=
  match l with
  | [] => Ok []
  | x :: l' => y ← f x; ys ← comprehension f l'; Ok (y :: ys)
  end.

(** ** Strings *)

Module Str.

(** Truth value of a [str]: non-empty. *)
Definition truthy (s : string) : bool :=
  match s with
  | EmptyString => false
  | String _ _ => true
  end.

(** [sub in s]. *)
Fixpoint contains (sub s : string) : bool :=
  String.prefix sub s
  || match s with
     | EmptyString => false
     | String _ s' => contains sub s'
     end.

(** [sub] occurs in [s]: what [contains] decides. *)
Definition substring_of (sub s : string) : Prop :=
  exists u v, s = u +:+ sub +:+ v.

(** [s.endswith(suffix)]. *)
Fixpoint endswith (s suffix : string) : bool :=
  String.eqb s suffix
  || match s with
     | EmptyString => false
     | String _ s' => endswith s' suffix
     end.

Definition lower_ascii (c : ascii) : ascii :=
  let n := nat_of_ascii c in
  if (65 <=? n) && (n <=? 90) then ascii_of_nat (n + 32) else c.

(** [s.lower()] on the characters below 128; the others never lower to a
    character of [".pdf"]. *)
Fixpoint lower (s : string) : string :=
  match s with
  | EmptyString => EmptyString
  | String c s' => String (lower_ascii c) (lower s')
  end.

(** The characters of [s] that satisfy [p]. *)
Fixpoint keep (p : ascii -> bool) (s : string) : string :=
  match s with
  | EmptyString => EmptyString
  | String c s' => if p c then String c (keep p s') else keep p s'
  end.

(** White space below 128: what [s.rstrip()] removes from the end. *)
Definition is_space (c : ascii) : bool :=
  let n := nat_of_ascii c in
  (n =? 32) || ((9 <=? n) && (n <=? 13)) || ((28 <=? n) && (n <=? 31)).

(** [s.rstrip()]. *)
Fixpoint rstrip (s : string) : string :=
  match s with
  | EmptyString => EmptyString
  | String c s' =>
      match rstrip s' with
      | EmptyString => if is_space c then EmptyString else String c EmptyString
      | String c' r => String c (String c' r)
      end
  end.

(** The order of [str]: [a < b] is [String.ltb a b], [a <= b] is
    [String.leb a b]. *)
Definition le (a b : string) : Prop := String.leb a b = true.

End Str.

(** ** Stable sort by key *)

Section StableSort.
Context {A : Type}.

(** Insert [x], coming from an earlier position than every element of [l],
    in front of the first element whose key is not smaller. *)
Fixpoint insert_by (x : string * A) (l : list (string * A)) : list (string * A) :=
  match l with
  | [] => [x]
  | y :: l' => if String.ltb y.1 x.1 then y :: insert_by x l' else x :: y :: l'
  end.

Definition sort_decorated (l : list (string * A)) : list (string * A) :=
  foldr insert_by [] l.

(** [sorted(l, key=key)]: the keys are computed first, one call per element,
    and an exception of [key] ends the sort. *)
Definition sorted (key : A -> outcome string) (l : list A) : outcome (list A) :=
  keys ← comprehension key l;
  Ok ((sort_decorated (zip keys l)).*2).

End StableSort.

(** The decorated elements are compared by their keys. *)
Definition key_le {A} (x y : string * A) : Prop := Str.le x.1 y.1.

(** ** The merge decision of [merge_pdfs] (lines 131 to 159, 167) *)

Definition enumerate {A} (l : list A) : list (nat * A) :=
  zip (seq 0 (length l)) l.

(** [[i for i, filename in enumerate(pdf_filenames)
      if self.invoice_string and self.invoice_string in filename]] *)
Definition invoice_pdf_indices (invoice_string : string) (pdf_filenames : list string)
  : list nat :=
  (List.filter
     (fun p : nat * string => Str.truthy invoice_string && Str.contains invoice_string p.2)
     (enumerate pdf_filenames)).*1.

(** The decision: [Ok None] is the early [return None]; [Ok (Some (pdf_order,
    output_filename))] reaches the merger; [Raise] is an exception raised
    before the merger is created. *)
Definition merge_plan (invoice_string : string) (pdf_paths pdf_filenames : list string)
  : outcome (option (list string * string)) :=
  if length pdf_paths <=? 1 then Ok None
  else
    let invoice_pdf_indices := invoice_pdf_indices invoice_string pdf_filenames in
    if Str.truthy invoice_string && (1 <? length invoice_pdf_indices) then Ok None
    else
      match invoice_pdf_indices with
      | invoice_index :: _ =>
          invoice_pdf ← index pdf_paths invoice_index;
          invoice_filename ← index pdf_filenames invoice_index;
          let other_pdf_indices :=
            List.filter (fun i => negb (i =? invoice_index)) (seq 0 (length pdf_paths)) in
          other_pdf_indices ← sorted (index pdf_filenames) other_pdf_indices;
          others ← comprehension (index pdf_paths) other_pdf_indices;
          Ok (Some (invoice_pdf :: others, invoice_filename))
      | [] =>
          sorted_indices ← sorted (index pdf_filenames) (seq 0 (length pdf_filenames));
          pdf_order ← comprehension (index pdf_paths) sorted_indices;
          first ← index sorted_indices 0;
          invoice_filename ← index pdf_filenames first;
          Ok (Some (pdf_order, invoice_filename))
      end.

(** The positions, counted from [s], of the strings of [l] that satisfy [Q]:
    the shape of [invoice_pdf_indices]. *)
Definition select (Q : string -> bool) (s : nat) (l : list string) : list nat :=
  (List.filter (fun p : nat * string => Q p.2) (zip (seq s (length l)) l)).*1.

(** Position [i] comes before position [j] in the order of the file names. *)
Definition by_filename (fns : list string) (i j : nat) : Prop :=
  Str.le (nth i fns "") (nth j fns "").

(** A candidate is a source path with its file name; candidates are ordered
    by file name. *)
Definition filename_le (a b : string * string) : Prop := Str.le a.2 b.2.

(** The sources at the positions [idxs], with the output file name. *)
Definition realize (paths : list string) (d : list nat * string)
  : list string * string :=
  ((fun i => nth i paths "") <$> d.1, d.2).

(** ** Messages *)

Abbreviation bytes := (list Byte.byte) (only parsing).
Abbreviation filesystem := (gmap string (list Byte.byte)) (only parsing).

(** A header as [email_message['Subject']] gives it: a [str], or a [Header]
    object when the raw header holds bytes above 127. *)
Inductive header_value : Type :=
  | Text (s : string)
  | Header (raw : list Byte.byte).

(** What the relay reads of one part: [get_content_maintype()],
    [get_content_subtype()], [get('Content-Disposition')], what
    [get_filename()] returns or raises (a [TypeError] on malformed
    parameters), and, on the message itself, the Subject and From headers. *)
Record headers : Type := {
  content_maintype : string;
  content_subtype : string;
  content_disposition : option string;
  filename : outcome (option string);
  Subject : option header_value;
  header_From : option string;
}.

(** The Subject header when it is a [str]. *)
Definition header_Subject (h : headers) : option string :=
  match Subject h with
  | Some (Text s) => Some s
  | Some (Header _) => None
  | None => None
  end.

(** A parsed message: a part with a payload, or a container of parts.  The
    payload of a [Leaf] is what [get_payload(decode=True)] gives for it: the
    decoded bytes, or the exception raised by the decoding. *)
Inductive message : Type :=
  | Leaf (h : headers) (payload : outcome (list Byte.byte))
  | Container (h : headers) (parts : list message).

Definition message_headers (part : message) : headers :=
  match part with
  | Leaf h _ => h
  | Container h _ => h
  end.

Definition get_content_maintype (part : message) : string :=
  content_maintype (message_headers part).
Definition get_content_subtype (part : message) : string :=
  content_subtype (message_headers part).
Definition get_content_type (part : message) : string :=
  get_content_maintype part +:+ "/" +:+ get_content_subtype part.
(** [part.get_filename()]. *)
Definition part_get_filename (part : message) : outcome (option string) :=
  filename (message_headers part).
(** The file name that [part.get_filename()] returns, when it returns one. *)
Definition get_filename (part : message) : option string :=
  match part_get_filename part with
  | Ok name => name
  | Raise _ => None
  end.

(** [part.get_payload(decode=True)]: [None] on a container. *)
Definition get_payload (part : message) : outcome (option bytes) :=
  match part with
  | Leaf _ payload => b ← payload; Ok (Some b)
  | Container _ _ => Ok None
  end.

(** Passing the payload where [bytes] are required. *)
Definition as_bytes (e : exn) (payload : option bytes) : outcome bytes :=
  match payload with
  | Some b => Ok b
  | None => Raise e
  end.

(** [message.walk()]: the part itself, then its sub-parts depth first. *)
Fixpoint walk (m : message) : list message :=
  m :: match m with
       | Leaf _ _ => []
       | Container _ parts => flat_map walk parts
       end.

(** The outbound [MIMEMultipart] message: its headers and attached parts. *)
Inductive mime_part : Type :=
  | MIMEApplication (data : list Byte.byte) (attachment_filename : string)
  | MIMEText (body : string) (body_type : string).

Record outbound : Type := {
  msg_From : string;
  msg_To : string;
  msg_Subject : string;
  msg_X_Original_Sender : string;
  msg_payload : list mime_part;
}.

Record config : Type := {
  simulate : bool;
  original_from_email : string;
  relay_to_email : string;
  invoice_string : string;
}.

(** ** Collaborators

    The libraries and services the relay calls: text decoding, temporary file
    names, the PDF merger, the simulation store and the SMTP server. *)
Class Collaborators : Type := {
  (** [b.decode('utf-8', errors='ignore')] *)
  decode_utf8_ignore : list Byte.byte -> string;
  (** the name [tempfile.NamedTemporaryFile] picks in a file system *)
  NamedTemporaryFile : gmap string (list Byte.byte) -> string;
  (** [PdfMerger]: [append] of each source in turn, then the written bytes *)
  PdfMerger : list (list Byte.byte) -> outcome (list Byte.byte);
  (** lines 226 to 247: what simulation mode stores for one attachment; the
      simulation directory is taken to be writable and the payload of the
      part to be [bytes] *)
  simulation_save :
    message -> message -> gmap string (list Byte.byte) -> gmap string (list Byte.byte);
  (** lines 319 to 348: the SMTP session *)
  sendmail : outbound -> outcome unit;
  (** [c.isalnum()] *)
  isalnum : ascii -> bool;
  (** whether, in a file system, [os.makedirs(temp_merge_dir, exist_ok=True)]
      and then opening the path for writing succeed: it raises when the
      directory of the path does not exist or the path is a directory *)
  open_for_writing : gmap string (list Byte.byte) -> string -> outcome unit;
  (** [os.path.join(os.path.dirname(__file__), 'temp_merged_pdfs')] *)
  temp_merge_dir : string;
}.

(** ** Paths (posixpath) *)

Definition path_join (a b : string) : string :=
  if String.prefix "/" b then b
  else if negb (Str.truthy a) || Str.endswith a "/" then a +:+ b
  else a +:+ "/" +:+ b.

Fixpoint basename (p : string) : string :=
  match p with
  | EmptyString => EmptyString
  | String _ p' => if Str.contains "/" p then basename p' else p
  end.

(** ** Computations on the file system that may raise *)

Definition io (A : Type) : Type :=
  gmap string (list Byte.byte) -> outcome A * gmap string (list Byte.byte).

#[global] Instance io_ret : MRet io := fun A a fs => (Ok a, fs).
#[global] Instance io_bind : MBind io := fun A B f m fs =>
  match m fs with
  | (Ok a, fs') => f a fs'
  | (Raise e, fs') => (Raise e, fs')
  end.

Definition lift {A} (m : outcome A) : io A := fun fs => (m, fs).

(** [open(path, 'rb').read()] *)
Definition read_file (path : string) : io bytes := fun fs =>
  match fs !! path with
  | Some b => (Ok b, fs)
  | None => (Raise FileNotFoundError, fs)
  end.

(** [try: body except Exception: return None] *)
Definition except_return_None {A} (body : io (option A))
  : gmap string (list Byte.byte) -> option A * gmap string (list Byte.byte) :=
  fun fs =>
    match body fs with
    | (Ok r, fs') => (r, fs')
    | (Raise _, fs') => (None, fs')
    end.

Fixpoint for_each {A B} (f : A -> io B) (l : list A) : io (list B) :=
  match l with
  | [] => mret []
  | x :: l' => y ← f x; ys ← for_each f l'; mret (y :: ys)
  end.

(** ** [merge_pdfs] and [relay_email] *)

Section Relay.
Context `{Collaborators}.

(** Lines 169 to 175: [os.makedirs(temp_merge_dir, exist_ok=True)] and
    [merger.write(output_path)]: the file is created or replaced when the
    path can be opened for writing. *)
Definition write_file (path : string) (data : bytes) : io unit := fun fs =>
  match open_for_writing fs path with
  | Ok _ => (Ok tt, <[path := data]> fs)
  | Raise e => (Raise e, fs)
  end.

(** Lines 162 to 178: the merger reads each source of [pdf_order] in turn
    and the result is written to [output_path]. *)
Definition merge_execute (pdf_order : list string) (invoice_filename : string)
  : io (option string) :=
  sources ← for_each read_file pdf_order;
  merged ← lift (PdfMerger sources);
  let output_filename := invoice_filename in
  let output_path := path_join temp_merge_dir output_filename in
  write_file output_path merged;;
  mret (Some output_path).

(** The body of the [try] of [merge_pdfs]: the decision, then the merge. *)
Definition merge_pdfs_body (invoice_string : string)
    (pdf_paths pdf_filenames : list string) : io (option string) :=
  plan ← lift (merge_plan invoice_string pdf_paths pdf_filenames);
  match plan with
  | None => mret None
  | Some (pdf_order, invoice_filename) => merge_execute pdf_order invoice_filename
  end.

Definition merge_pdfs (invoice_string : string) (pdf_paths pdf_filenames : list string)
  : filesystem -> option string * filesystem :=
  except_return_None (merge_pdfs_body invoice_string pdf_paths pdf_filenames).

(** ** [relay_email] *)

(** [value or default] on an optional [str]. *)
Definition or_default (value : option string) (default : string) : string :=
  match value with
  | Some s => if Str.truthy s then s else default
  | None => default
  end.

(** Lines 217 to 250: the first walk, which fills [pdf_attachments]. *)
Fixpoint collect_pdf_attachments (self : config) (email_message : message)
    (parts : list message) (pdf_attachments : list (option bytes))
  : io (list (option bytes)) :=
  match parts with
  | [] => mret pdf_attachments
  | part :: parts' =>
      let continue := collect_pdf_attachments self email_message parts' in
      if String.eqb (get_content_maintype part) "multipart" then continue pdf_attachments
      else
        match content_disposition (message_headers part) with
        | None => continue pdf_attachments
        | Some _ =>
            filename ← lift (part_get_filename part);
            match filename with
            | Some filename =>
                if Str.truthy filename && Str.endswith (Str.lower filename) ".pdf" then
                  (fun fs =>
                     (Ok tt, if simulate self
                             then simulation_save email_message part fs else fs));;
                  payload ← lift (get_payload part);
                  continue (pdf_attachments ++ [payload])
                else continue pdf_attachments
            | None => continue pdf_attachments
            end
        end
  end.

(** Lines 261 to 270: the second walk, which writes one temporary file per
    [application/pdf] part with a file name.  The lists [pdf_paths] and
    [pdf_filenames] are returned as they stand when the loop ends or
    raises. *)
Fixpoint materialize (parts : list message) (pdf_paths pdf_filenames : list string)
    (fs : filesystem) : outcome unit * (list string * list string) * filesystem :=
  match parts with
  | [] => (Ok tt, (pdf_paths, pdf_filenames), fs)
  | part :: parts' =>
      if String.eqb (get_content_maintype part) "application"
         && String.eqb (get_content_subtype part) "pdf" then
        match part_get_filename part with
        | Ok (Some filename) =>
            if Str.truthy filename then
              let temp_pdf := NamedTemporaryFile fs in
              let fs := <[temp_pdf := []]> fs in
              match payload ← get_payload part; as_bytes TypeError payload with
              | Ok data =>
                  materialize parts' (pdf_paths ++ [temp_pdf])
                    (pdf_filenames ++ [filename]) (<[temp_pdf := data]> fs)
              | Raise e => (Raise e, (pdf_paths, pdf_filenames), fs)
              end
            else materialize parts' pdf_paths pdf_filenames fs
        | Ok None => materialize parts' pdf_paths pdf_filenames fs
        | Raise e => (Raise e, (pdf_paths, pdf_filenames), fs)
        end
      else materialize parts' pdf_paths pdf_filenames fs
  end.

(** Lines 275 to 277: [if os.path.exists(pdf_path): os.unlink(pdf_path)]. *)
Definition unlink_all (pdf_paths : list string) (fs : filesystem) : filesystem :=
  foldl (fun fs pdf_path => if decide (is_Some (fs !! pdf_path))
                            then delete pdf_path fs else fs)
    fs pdf_paths.

(** Lines 255 to 272: the [try] part.  Gives [merged_pdf_path] or the
    exception, and [pdf_paths] as the [finally] clause finds it. *)
Definition merge_attempt (self : config) (email_message : message)
    (pdf_attachments : list (option bytes)) (fs : filesystem)
  : outcome (option string) * list string * filesystem :=
  if 1 <? length pdf_attachments then
    match materialize (walk email_message) [] [] fs with
    | (Ok _, (pdf_paths, pdf_filenames), fs1) =>
        let '(merged_pdf_path, fs2) :=
          merge_pdfs (invoice_string self) pdf_paths pdf_filenames fs1 in
        (Ok merged_pdf_path, pdf_paths, fs2)
    | (Raise e, (pdf_paths, _), fs1) => (Raise e, pdf_paths, fs1)
    end
  else (Ok None, [], fs).

(** Lines 255 to 277: [try ... finally]. *)
Definition merge_block (self : config) (email_message : message)
    (pdf_attachments : list (option bytes)) (fs : filesystem)
  : outcome (option string) * list string * filesystem :=
  let '(merged_pdf_path, pdf_paths, fs1) :=
    merge_attempt self email_message pdf_attachments fs in
  (merged_pdf_path, pdf_paths, unlink_all pdf_paths fs1).

(** Lines 291 to 296: one [MIMEApplication] per [application/pdf] part. *)
Fixpoint attach_individual (parts : list message) : outcome (list mime_part) :=
  match parts with
  | [] => Ok []
  | part :: parts' =>
      if String.eqb (get_content_maintype part) "application"
         && String.eqb (get_content_subtype part) "pdf" then
        name ← part_get_filename part;
        let filename := or_default name "attachment.pdf" in
        payload ← get_payload part;
        data ← as_bytes TypeError payload;
        rest ← attach_individual parts';
        Ok (MIMEApplication data filename :: rest)
      else attach_individual parts'
  end.

(** Lines 280 to 296. *)
Definition attach_pdfs (email_message : message)
    (pdf_attachments : list (option bytes)) (merged_pdf_path : option string)
  : io (list mime_part) :=
  match pdf_attachments with
  | [] => mret []
  | _ :: _ =>
      match merged_pdf_path with
      | Some path =>
          if Str.truthy path then
            merged_pdf_content ← read_file path;
            let merged_filename := basename path in
            mret [MIMEApplication merged_pdf_content merged_filename]
          else lift (attach_individual (walk email_message))
      | None => lift (attach_individual (walk email_message))
      end
  end.

(** Lines 299 to 308: the loop over the parts, from the current [body] and
    [body_type]. *)
Fixpoint extract_body (parts : list message) (body body_type : string)
  : outcome (string * string) :=
  match parts with
  | [] => Ok (body, body_type)
  | part :: parts' =>
      let content_type := get_content_type part in
      if String.eqb content_type "text/plain" then
        payload ← get_payload part;
        data ← as_bytes AttributeError payload;
        Ok (decode_utf8_ignore data, body_type)
      else if String.eqb content_type "text/html" && negb (Str.truthy body) then
        payload ← get_payload part;
        data ← as_bytes AttributeError payload;
        extract_body parts' (decode_utf8_ignore data) "html"
      else extract_body parts' body body_type
  end.

(** Lines 311 to 312. *)
Definition attach_body (body body_type : string) : list mime_part :=
  if Str.truthy body then [MIMEText body body_type] else [].

(** Lines 315 to 350: hand the message over. *)
Definition deliver (self : config) (msg : outbound) : option outbound :=
  if simulate self then Some msg
  else match sendmail msg with
       | Ok _ => Some msg
       | Raise _ => None
       end.

(** Lines 188 to 198 and 279 to 350: the headers, the attachments, the body
    and the delivery, once [merged_pdf_path] is known. *)
Definition compose_and_deliver (self : config) (email_message : message)
    (pdf_attachments : list (option bytes)) (merged_pdf_path : option string)
  : io (option outbound) :=
  let subject := or_default (header_Subject (message_headers email_message))
                   "Relayed Email" in
  let sender := default "Unknown Sender"
                  (header_From (message_headers email_message)) in
  pdfs ← attach_pdfs email_message pdf_attachments merged_pdf_path;
  '(body, body_type) ← lift (extract_body (walk email_message) "" "plain");
  let msg := {| msg_From := original_from_email self;
                msg_To := relay_to_email self;
                msg_Subject := subject;
                msg_X_Original_Sender := sender;
                msg_payload := pdfs ++ attach_body body body_type |} in
  mret (deliver self msg).

(** Line 195: [email_message['Subject'] or 'Relayed Email']; a [Header]
    object is true. *)
Definition subject_or_default (subject : option header_value) : header_value :=
  match subject with
  | Some (Text s) => if Str.truthy s then Text s else Text "Relayed Email"
  | Some (Header raw) => Header raw
  | None => Text "Relayed Email"
  end.

(** Line 206: the subject without the characters that are neither
    alphanumeric nor a space, an underscore or a hyphen, and without trailing
    white space.  A [Header] object cannot be iterated: [TypeError]. *)
Definition sanitize_subject (subject : header_value) : outcome string :=
  match subject with
  | Text s =>
      Ok (Str.rstrip
            (Str.keep (fun c => isalnum c
                                || existsb (Ascii.eqb c) [" "; "_"; "-"]%char) s))
  | Header _ => Raise TypeError
  end.

(** The body of the [try] of [relay_email].  [safe_subject] names the
    directory of the simulation, which is kept by [simulation_save]. *)
Definition relay_email_body (self : config) (email_message : message)
  : io (option outbound) :=
  let subject := subject_or_default (Subject (message_headers email_message)) in
  safe_subject ← lift (sanitize_subject subject);
  pdf_attachments ←
    collect_pdf_attachments self email_message (walk email_message) [];
  merged_pdf_path ←
    (fun fs => let '(r, _, fs') := merge_block self email_message pdf_attachments fs
               in (r, fs'));
  compose_and_deliver self email_message pdf_attachments merged_pdf_path.

Definition relay_email (self : config) (email_message : message)
  : filesystem -> option outbound * filesystem :=
  except_return_None (relay_email_body self email_message).

End Relay.

(** ** Predicates on parts *)

(** The three tests of lines 218 to 224 together: the part is counted in
    [pdf_attachments]. *)
Definition counted_as_pdf (part : message) : bool :=
  negb (String.eqb (get_content_maintype part) "multipart")
  && bool_decide (is_Some (content_disposition (message_headers part)))
  && match get_filename part with
     | Some filename => Str.truthy filename && Str.endswith (Str.lower filename) ".pdf"
     | None => false
     end.

(** The test of lines 262 and 292. *)
Definition is_application_pdf (part : message) : bool :=
  String.eqb (get_content_maintype part) "application"
  && String.eqb (get_content_subtype part) "pdf".

(** A part whose payload can be read as bytes wherever the relay does so: the
    payload of a leaf decodes, and a container is a [multipart] or [message]
    part (the only ones the parser builds). *)
Definition part_decodes (part : message) : bool :=
  match part with
  | Leaf _ (Ok _) => true
  | Leaf _ (Raise _) => false
  | Container h _ =>
      String.eqb (content_maintype h) "multipart"
      || String.eqb (content_maintype h) "message"
  end.

Definition decodable (m : message) : bool := forallb part_decodes (walk m).

(** The file name of an attached PDF. *)
Definition attachment_name (p : mime_part) : option string :=
  match p with
  | MIMEApplication _ name => Some name
  | MIMEText _ _ => None
  end.

(** The attached PDFs of an outbound message. *)
Definition attachments (msg : outbound) : list mime_part :=
  List.filter (fun p => bool_decide (is_Some (attachment_name p))) (msg_payload msg).

(** The tests of lines 262 and 265 together: the part is written to a
    temporary file and handed to [merge_pdfs]. *)
Definition is_merge_source (part : message) : bool :=
  is_application_pdf part
  && match get_filename part with
     | Some filename => Str.truthy filename
     | None => false
     end.

(** [part.get_filename()] returns, with a file name or [None]. *)
Definition filename_readable (part : message) : bool :=
  match part_get_filename part with
  | Ok _ => true
  | Raise _ => false
  end.

(** The [Subject] header of the message is absent or a string, so that line
    206 can iterate over it. *)
Definition subject_is_str (email_message : message) : bool :=
  match Subject (message_headers email_message) with
  | Some (Header _) => false
  | _ => true
  end.

(** The tests of lines 303 and 306. *)
Definition is_text_plain (part : message) : bool :=
  String.eqb (get_content_type part) "text/plain".

Definition is_text_html (part : message) : bool :=
  String.eqb (get_content_type part) "text/html".

(** The outbound message of [relay_email] for [email_message], with the given
    attached parts (lines 188 to 198). *)
Definition outbound_message (self : config) (email_message : message)
    (payload : list mime_part) : outbound :=
  {| msg_From := original_from_email self;
     msg_To := relay_to_email self;
     msg_Subject :=
       or_default (header_Subject (message_headers email_message)) "Relayed Email";
     msg_X_Original_Sender :=
       default "Unknown Sender" (header_From (message_headers email_message));
     msg_payload := payload |}.

(** ** Sample data *)

Module Sample.

(** The letters and digits below 128. *)
Definition ascii_isalnum (c : ascii) : bool :=
  let n := nat_of_ascii c in
  ((48 <=? n) && (n <=? 57)) || ((65 <=? n) && (n <=? 90))
  || ((97 <=? n) && (n <=? 122)).

(** A file system in which [/app/temp_merged_pdfs] can be made and has no
    directory below it: a file can be written in it or in the directory
    above it. *)
Definition open_in_merge_dir (fs : gmap string (list Byte.byte)) (path : string)
  : outcome unit :=
  let name := basename path in
  if Str.truthy name
     && negb (String.eqb name "." || String.eqb name "..")
     && (String.eqb path ("/app/temp_merged_pdfs/" +:+ name)
         || String.eqb path ("/app/temp_merged_pdfs/../" +:+ name))
  then Ok tt else Raise FileNotFoundError.

Definition collaborators : Collaborators := {|
  decode_utf8_ignore := String.string_of_list_byte;
  NamedTemporaryFile := fun fs => "/tmp/tmp" +:+ pretty (size fs) +:+ ".pdf";
  PdfMerger := fun sources =>
    if forallb (fun b => negb (length b =? 0)) sources
    then Ok (concat sources) else Raise PdfReadError;
  simulation_save := fun _ _ fs => fs;
  sendmail := fun _ => Ok tt;
  isalnum := ascii_isalnum;
  open_for_writing := open_in_merge_dir;
  temp_merge_dir := "/app/temp_merged_pdfs";
|}.

(** The same collaborators, with temporary names that are new in every file
    system. *)
Definition fresh_collaborators : Collaborators := {|
  decode_utf8_ignore := String.string_of_list_byte;
  NamedTemporaryFile := fun fs => fresh (dom fs);
  PdfMerger := fun sources =>
    if forallb (fun b => negb (length b =? 0)) sources
    then Ok (concat sources) else Raise PdfReadError;
  simulation_save := fun _ _ fs => fs;
  sendmail := fun _ => Ok tt;
  isalnum := ascii_isalnum;
  open_for_writing := open_in_merge_dir;
  temp_merge_dir := "/app/temp_merged_pdfs";
|}.

Definition self : config := {|
  simulate := false;
  original_from_email := "billing@example.org";
  relay_to_email := "archive@example.org";
  invoice_string := "invoice";
|}.

Definition part (maintype subtype : string) (name : option string) : headers := {|
  content_maintype := maintype;
  content_subtype := subtype;
  content_disposition := (fun _ => "attachment") <$> name;
  filename := Ok name;
  Subject := None;
  header_From := None;
|}.

Definition mixed : headers := {|
  content_maintype := "multipart";
  content_subtype := "mixed";
  content_disposition := None;
  filename := Ok None;
  Subject := Some (Text "March");
  header_From := Some "sender@example.org";
|}.

Definition data (s : string) : list Byte.byte := String.list_byte_of_string s.

(** Two PDF files sent as [application/octet-stream]. *)
Definition octet_stream_pdfs : message :=
  Container mixed
    [Leaf (part "application" "octet-stream" (Some "a.pdf")) (Ok (data "%PDF-A"));
     Leaf (part "application" "octet-stream" (Some "b.pdf")) (Ok (data "%PDF-B"))].

(** An HTML body followed by a plain text body. *)
Definition html_then_plain : message :=
  Container mixed
    [Leaf (part "text" "html" None) (Ok (data "<p>hi</p>"));
     Leaf (part "text" "plain" None) (Ok (data "hi"))].

(** A plain text body followed by an HTML body. *)
Definition plain_then_html : message :=
  Container mixed
    [Leaf (part "text" "plain" None) (Ok (data "hi"));
     Leaf (part "text" "html" None) (Ok (data "<p>hi</p>"))].

(** Two PDF attachments, the payload of the first does not decode. *)
Definition undecodable_first : message :=
  Container mixed
    [Leaf (part "application" "pdf" (Some "a.pdf")) (Raise DecodeError);
     Leaf (part "application" "pdf" (Some "b.pdf")) (Ok (data "%PDF-B"))].

(** Two PDF attachments, the second is empty, which the sample merger
    rejects. *)
Definition corrupt_second : message :=
  Container mixed
    [Leaf (part "application" "pdf" (Some "b.pdf")) (Ok (data "%PDF-B"));
     Leaf (part "application" "pdf" (Some "a.pdf")) (Ok []);
     Leaf (part "text" "plain" None) (Ok (data "see attached"))].

(** Two [application/pdf] attachments, the second empty, which the sample
    merger rejects, a third PDF sent as [application/octet-stream], and a
    body. *)
Definition corrupt_and_octet_stream : message :=
  Container mixed
    [Leaf (part "application" "pdf" (Some "b.pdf")) (Ok (data "%PDF-B"));
     Leaf (part "application" "pdf" (Some "a.pdf")) (Ok []);
     Leaf (part "application" "octet-stream" (Some "c.pdf")) (Ok (data "%PDF-C"));
     Leaf (part "text" "plain" None) (Ok (data "see attached"))].

(** Two well-formed PDF attachments, one of them the invoice. *)
Definition invoice_and_note : message :=
  Container mixed
    [Leaf (part "application" "pdf" (Some "note.pdf")) (Ok (data "%PDF-N"));
     Leaf (part "application" "pdf" (Some "invoice_7.pdf")) (Ok (data "%PDF-I"))].

(** Two PDF attachments and a third [application/pdf] part, without a
    disposition, whose payload does not decode. *)
Definition undecodable_source : message :=
  Container mixed
    [Leaf (part "application" "pdf" (Some "a.pdf")) (Ok (data "%PDF-A"));
     Leaf (part "application" "pdf" (Some "b.pdf")) (Ok (data "%PDF-B"));
     Leaf {| content_maintype := "application";
             content_subtype := "pdf";
             content_disposition := None;
             filename := Ok (Some "c.pdf");
             Subject := None;
             header_From := None |} (Raise DecodeError)].

(** A message without subject and sender, with an inline PDF that has no
    disposition header and an HTML body. *)
Definition bare : headers := {|
  content_maintype := "multipart";
  content_subtype := "related";
  content_disposition := None;
  filename := Ok None;
  Subject := None;
  header_From := None;
|}.

Definition inline_pdf_and_html : message :=
  Container bare
    [Leaf {| content_maintype := "application";
             content_subtype := "pdf";
             content_disposition := None;
             filename := Ok (Some "inline.pdf");
             Subject := None;
             header_From := None |} (Ok (data "%PDF-X"));
     Leaf (part "text" "html" None) (Ok (data "<b>hello</b>"))].

(** Two PDF attachments, the file name of the invoice names a directory. *)
Definition invoice_in_folder : message :=
  Container mixed
    [Leaf (part "application" "pdf" (Some "note.pdf")) (Ok (data "%PDF-N"));
     Leaf (part "application" "pdf" (Some "2024/invoice_7.pdf")) (Ok (data "%PDF-I"))].

(** A message whose Subject holds a byte above 127. *)
Definition eight_bit_subject : message :=
  Container {| content_maintype := "multipart";
               content_subtype := "mixed";
               content_disposition := None;
               filename := Ok None;
               Subject := Some (Header (data "R" ++ [Byte.xe9] ++ data "sum"));
               header_From := Some "sender@example.org" |}
    [Leaf (part "text" "plain" None) (Ok (data "hi"))].

(** A message with an attachment whose [filename] parameter is malformed, so
    that [get_filename()] raises. *)
Definition malformed_filename : message :=
  Container mixed
    [Leaf {| content_maintype := "application";
             content_subtype := "pdf";
             content_disposition := Some "attachment";
             filename := Raise TypeError;
             Subject := None;
             header_From := None |} (Ok (data "%PDF-A"));
     Leaf (part "text" "plain" None) (Ok (data "hi"))].

(** A message with an image only. *)
Definition image_only : message :=
  Container mixed [Leaf (part "image" "png" (Some "logo.png")) (Ok (data "PNG"))].

End Sample.

(** * Properties *)

Ltac io_unfold := unfold mbind, io_bind, mret, io_ret, lift.

(** ** The order of strings *)

Lemma ascii_compare_refl c : Ascii.compare c c = Eq.
Proof. unfold Ascii.compare. apply N.compare_refl. Qed.

Lemma ascii_compare_lt_trans a b c :
  Ascii.compare a b = Lt -> Ascii.compare b c = Lt -> Ascii.compare a c = Lt.
Proof. unfold Ascii.compare. rewrite !N.compare_lt_iff. lia. Qed.

Lemma string_compare_refl s : String.compare s s = Eq.
Proof. induction s as [|c s IH]; simpl; [done|]. by rewrite ascii_compare_refl. Qed.

Lemma string_compare_not_gt_trans a b c :
  String.compare a b <> Gt -> String.compare b c <> Gt -> String.compare a c <> Gt.
Proof.
  revert b c. induction a as [|x a IH]; intros [|y b] [|z c]; simpl; try done.
  destruct (Ascii.compare x y) eqn:Hxy; [|clear IH|done].
  - apply Ascii.compare_eq_iff in Hxy as ->.
    destruct (Ascii.compare y z); [apply IH|done|done].
  - destruct (Ascii.compare y z) eqn:Hyz; [|by rewrite (ascii_compare_lt_trans _ _ _ Hxy Hyz)|done].
    apply Ascii.compare_eq_iff in Hyz as <-. by rewrite Hxy.
Qed.

Lemma leb_negb_ltb a b : String.leb a b = negb (String.ltb b a).
Proof.
  unfold String.leb, String.ltb. rewrite (String.compare_antisym b a).
  by destruct (String.compare a b).
Qed.

Lemma Str_le_refl a : Str.le a a.
Proof. unfold Str.le, String.leb. by rewrite string_compare_refl. Qed.

Lemma Str_le_trans a b c : Str.le a b -> Str.le b c -> Str.le a c.
Proof.
  unfold Str.le, String.leb. intros Hab Hbc.
  pose proof (string_compare_not_gt_trans a b c) as Ht.
  destruct (String.compare a b), (String.compare b c), (String.compare a c);
    try done; exfalso; by apply Ht.
Qed.

Lemma prefix_spec a s : String.prefix a s = true <-> exists v, s = a +:+ v.
Proof.
  revert s. induction a as [|x a IH]; intros s.
  - split; [eexists; reflexivity|]. by destruct s.
  - destruct s as [|y s]; simpl.
    + split; [done|]. by intros [v Hv].
    + destruct (ascii_dec x y) as [->|Hne].
      * rewrite IH. split; intros [v Hv]; exists v; [by rewrite Hv|by injection Hv].
      * split; [done|]. intros [v Hv]. injection Hv as ? ?. congruence.
Qed.

Lemma contains_spec a s : Str.contains a s = true <-> exists u v, s = u +:+ a +:+ v.
Proof.
  induction s as [|c s IH]; cbn [Str.contains].
  - rewrite orb_false_r, prefix_spec. split.
    + intros [v Hv]. by exists "", v.
    + intros ([|? u] & v & Hv); [by exists v|done].
  - rewrite orb_true_iff, prefix_spec, IH. split.
    + intros [[v Hv]|(u & v & Hv)]; [by exists "", v|].
      exists (String c u), v. simpl. by rewrite Hv.
    + intros ([|x u] & v & Hv); [left; by exists v|].
      right. injection Hv as ? ?. by exists u, v.
Qed.

Lemma ltb_le a b : String.ltb a b = true -> Str.le a b.
Proof.
  unfold Str.le, String.ltb, String.leb. by destruct (String.compare a b).
Qed.

Lemma not_ltb_le a b : String.ltb a b = false -> Str.le b a.
Proof. unfold Str.le. rewrite leb_negb_ltb. by intros ->. Qed.

Section SortLemmas.
Context {A : Type}.
Implicit Types (x : string * A) (l : list (string * A)).

Lemma insert_by_perm x l : insert_by x l ≡ₚ x :: l.
Proof.
  induction l as [|y l IH]; simpl; [done|].
  destruct (String.ltb y.1 x.1); [|done].
  rewrite IH. apply Permutation_swap.
Qed.

Lemma sort_decorated_perm l : sort_decorated l ≡ₚ l.
Proof.
  induction l as [|x l IH]; simpl; [done|].
  by rewrite insert_by_perm, IH.
Qed.

Lemma insert_by_sorted x l :
  StronglySorted key_le l -> StronglySorted key_le (insert_by x l).
Proof.
  induction 1 as [|y l Hl IH Hy]; simpl.
  - repeat constructor.
  - destruct (String.ltb y.1 x.1) eqn:Hlt.
    + constructor; [done|].
      rewrite insert_by_perm. constructor; [by apply ltb_le|done].
    + apply not_ltb_le in Hlt.
      constructor; [by constructor|].
      constructor; [done|].
      eapply Forall_impl; [exact Hy|]. intros z Hz. by eapply Str_le_trans.
Qed.

Lemma sort_decorated_sorted l : StronglySorted key_le (sort_decorated l).
Proof.
  induction l as [|x l IH]; simpl; [constructor|]. by apply insert_by_sorted.
Qed.
End SortLemmas.

Lemma comprehension_total {A B} (f : A -> outcome B) (g : A -> B) l :
  (forall x, x ∈ l -> f x = Ok (g x)) -> comprehension f l = Ok (g <$> l).
Proof.
  induction l as [|x l IH]; intros Hf; simpl; [done|].
  rewrite (Hf x) by left. simpl.
  rewrite IH; [done|]. intros y Hy. apply Hf. by right.
Qed.

Lemma StronglySorted_snd_zip {A} (f : A -> string) (d : list (string * A)) :
  (forall p, p ∈ d -> p.1 = f p.2) ->
  StronglySorted key_le d ->
  StronglySorted (fun a b => Str.le (f a) (f b)) d.*2.
Proof.
  intros Hd. induction 1 as [|p d Hs IH Hp]; simpl; [constructor|].
  constructor.
  - apply IH. intros q Hq. apply Hd. by right.
  - rewrite Forall_fmap. rewrite Forall_forall in Hp |- *.
    intros q Hq. simpl. unfold key_le in Hp.
    rewrite <- (Hd p) by left. rewrite <- (Hd q) by (by right). by apply Hp.
Qed.

Lemma sorted_total {A} (key : A -> outcome string) (f : A -> string) (l : list A) :
  (forall x, x ∈ l -> key x = Ok (f x)) ->
  exists l', sorted key l = Ok l' /\ l' ≡ₚ l
             /\ StronglySorted (fun a b => Str.le (f a) (f b)) l'.
Proof.
  intros Hkey. unfold sorted. rewrite (comprehension_total _ f) by done. simpl.
  eexists. split; [reflexivity|]. split.
  - rewrite sort_decorated_perm. by rewrite snd_zip by (by rewrite length_fmap).
  - apply StronglySorted_snd_zip; [|apply sort_decorated_sorted].
    intros p Hp. rewrite sort_decorated_perm in Hp.
    apply list_elem_of_lookup in Hp as [i Hi].
    apply lookup_zip_with_Some in Hi as (k & x & -> & Hk & Hx).
    rewrite list_lookup_fmap, Hx in Hk. simpl in Hk. by injection Hk as <-.
Qed.

Lemma index_nth {A} (l : list A) i d : i < length l -> index l i = Ok (nth i l d).
Proof.
  intros Hi. unfold index. rewrite nth_lookup.
  destruct (lookup_lt_is_Some_2 l i Hi) as [x ->]. done.
Qed.

Section Select.
Context (Q : string -> bool).

Lemma select_cons s x l :
  select Q s (x :: l) = if Q x then s :: select Q (S s) l else select Q (S s) l.
Proof. unfold select. simpl. by destruct (Q x). Qed.

Lemma select_none s l : Forall (fun x => Q x = false) l -> select Q s l = [].
Proof.
  intros Hl. revert s. induction Hl as [|x l Hx _ IH]; intros s; [done|].
  by rewrite select_cons, Hx.
Qed.

Lemma select_app s l1 l2 :
  select Q s (l1 ++ l2) = select Q s l1 ++ select Q (s + length l1) l2.
Proof.
  revert s. induction l1 as [|x l1 IH]; intros s; simpl.
  - by rewrite Nat.add_0_r.
  - rewrite !select_cons, IH, Nat.add_succ_r. by destruct (Q x).
Qed.

Lemma select_elem s l i x :
  l !! i = Some x -> Q x = true -> s + i ∈ select Q s l.
Proof.
  revert s i. induction l as [|y l IH]; intros s [|i] Hi Hx; simplify_eq/=.
  - rewrite select_cons, Hx, Nat.add_0_r. left.
  - rewrite select_cons, Nat.add_succ_r.
    destruct (Q y); [right|]; by apply (IH (S s)).
Qed.

Lemma select_bound s l i : i ∈ select Q s l -> s <= i < s + length l.
Proof.
  revert s. induction l as [|y l IH]; intros s; [by intros ?%elem_of_nil|].
  rewrite select_cons. simpl. intros Hi.
  assert (i = s \/ i ∈ select Q (S s) l) as [->|Hi'%IH]; [|lia|lia].
  destruct (Q y); [|by right]. by apply elem_of_cons in Hi.
Qed.
End Select.

Lemma invoice_pdf_indices_select inv fns :
  invoice_pdf_indices inv fns
  = select (fun fn => Str.truthy inv && Str.contains inv fn) 0 fns.
Proof. reflexivity. Qed.

Lemma filter_all {A} (p : A -> bool) l :
  Forall (fun x => p x = true) l -> List.filter p l = l.
Proof. induction 1 as [|x l Hx _ IH]; simpl; [done|]. by rewrite Hx, IH. Qed.

Lemma seq_split k n : k < n -> seq 0 n = seq 0 k ++ k :: seq (S k) (n - S k).
Proof.
  intros Hk. replace n with (k + S (n - S k)) at 1 by lia.
  by rewrite seq_app.
Qed.

Lemma filter_seq_ne k n :
  k < n ->
  List.filter (fun i => negb (i =? k)) (seq 0 n) = seq 0 k ++ seq (S k) (n - S k).
Proof.
  intros Hk. rewrite (seq_split k n Hk), List.filter_app. simpl.
  rewrite Nat.eqb_refl. simpl.
  rewrite !filter_all; [done| |].
  - apply Forall_forall. intros i [? ?]%elem_of_seq.
    apply negb_true_iff, Nat.eqb_neq. lia.
  - apply Forall_forall. intros i [? ?]%elem_of_seq.
    apply negb_true_iff, Nat.eqb_neq. lia.
Qed.

Lemma cons_filter_seq_ne k n :
  k < n -> k :: List.filter (fun i => negb (i =? k)) (seq 0 n) ≡ₚ seq 0 n.
Proof.
  intros Hk. rewrite filter_seq_ne, (seq_split k n Hk) by done.
  apply Permutation_middle.
Qed.

Lemma merge_plan_short inv paths fns :
  length paths <= 1 -> merge_plan inv paths fns = Ok None.
Proof.
  intros Hlen. unfold merge_plan.
  by destruct (Nat.leb_spec (length paths) 1); [|lia].
Qed.

Lemma merge_plan_ambiguous inv paths fns :
  inv <> "" -> 1 < length (invoice_pdf_indices inv fns) ->
  merge_plan inv paths fns = Ok None.
Proof.
  intros Hinv Hmany. unfold merge_plan.
  destruct (length paths <=? 1); [done|].
  destruct inv; [done|]. simpl Str.truthy.
  by destruct (Nat.ltb_spec 1 (length (invoice_pdf_indices (String a inv) fns))); [|lia].
Qed.

Lemma sorted_by_filename fns idxs :
  Forall (fun i => i < length fns) idxs ->
  exists idxs', sorted (index fns) idxs = Ok idxs' /\ idxs' ≡ₚ idxs
                /\ StronglySorted (by_filename fns) idxs'.
Proof.
  intros Hidxs. apply sorted_total.
  intros i Hi. apply index_nth. by eapply Forall_forall in Hidxs.
Qed.

Lemma comprehension_index {A} (l : list A) d idxs :
  Forall (fun i => i < length l) idxs ->
  comprehension (index l) idxs = Ok ((fun i => nth i l d) <$> idxs).
Proof.
  intros Hidxs. apply comprehension_total.
  intros i Hi. apply index_nth. by eapply Forall_forall in Hidxs.
Qed.

Lemma merge_plan_invoice_first inv fns k :
  2 <= length fns -> invoice_pdf_indices inv fns = [k] ->
  exists rest,
    rest ≡ₚ List.filter (fun i => negb (i =? k)) (seq 0 (length fns))
    /\ StronglySorted (by_filename fns) rest
    /\ forall paths, length paths = length fns ->
         merge_plan inv paths fns
         = Ok (Some (nth k paths "" :: ((fun i => nth i paths "") <$> rest), nth k fns "")).
Proof.
  intros Hn Hk.
  assert (k < length fns) as Hlt.
  { assert (k ∈ invoice_pdf_indices inv fns) as Hin by (rewrite Hk; left).
    rewrite invoice_pdf_indices_select in Hin. apply select_bound in Hin. lia. }
  set (others := List.filter (fun i => negb (i =? k)) (seq 0 (length fns))).
  assert (Forall (fun i => i < length fns) others) as Hothers.
  { apply Forall_forall. intros i Hi. subst others.
    apply list_elem_of_In, filter_In in Hi as [Hi%list_elem_of_In _].
    apply elem_of_seq in Hi. lia. }
  destruct (sorted_by_filename fns others Hothers) as (rest & Hsort & Hperm & Hsorted).
  exists rest. split; [done|]. split; [done|].
  intros paths Hlen. unfold merge_plan. rewrite Hlen, Hk.
  destruct (Nat.leb_spec (length fns) 1); [lia|].
  rewrite andb_false_r.
  rewrite (index_nth paths k "") by lia. rewrite (index_nth fns k "") by lia. simpl.
  fold others. rewrite Hsort. simpl.
  rewrite (comprehension_index paths ""); [done|].
  rewrite Hperm, Hlen. done.
Qed.

Lemma merge_plan_all_sorted inv fns :
  2 <= length fns -> invoice_pdf_indices inv fns = [] ->
  exists idxs,
    idxs ≡ₚ seq 0 (length fns)
    /\ StronglySorted (by_filename fns) idxs
    /\ forall paths, length paths = length fns ->
         merge_plan inv paths fns
         = Ok (Some ((fun i => nth i paths "") <$> idxs, nth (hd 0 idxs) fns "")).
Proof.
  intros Hn Hnone.
  assert (Forall (fun i => i < length fns) (seq 0 (length fns))) as Hall.
  { apply Forall_forall. intros i Hi%elem_of_seq. lia. }
  destruct (sorted_by_filename fns _ Hall) as (idxs & Hsort & Hperm & Hsorted).
  exists idxs. split; [done|]. split; [done|].
  intros paths Hlen. unfold merge_plan. rewrite Hlen, Hnone.
  destruct (Nat.leb_spec (length fns) 1); [lia|].
  rewrite andb_false_r. rewrite Hsort. simpl.
  assert (Forall (fun i => i < length fns) idxs) as Hidxs by (by rewrite Hperm).
  rewrite (comprehension_index paths "") by (by rewrite Hlen). simpl.
  destruct idxs as [|i idxs].
  { apply Permutation_length in Hperm. rewrite length_seq in Hperm. simpl in Hperm. lia. }
  simpl. apply Forall_cons in Hidxs as [Hi _].
  by rewrite (index_nth fns i "") by done.
Qed.

(** ** Candidates and positions *)

Lemma nth_fmap {A B} (f : A -> B) (l : list A) (d : A) (i : nat) :
  nth i (f <$> l) (f d) = f (nth i l d).
Proof. revert i. induction l as [|x l IH]; intros [|i]; simpl; auto. Qed.

Lemma fmap_nth_seq {A} (l : list A) (d : A) (s m : nat) :
  s + m <= length l -> (fun i => nth i l d) <$> seq s m = take m (drop s l).
Proof.
  intros Hlen. apply list_eq. intros i. rewrite list_lookup_fmap.
  destruct (decide (i < m)) as [Hi|Hi].
  - rewrite lookup_seq_lt, lookup_take_lt, lookup_drop by done. simpl.
    rewrite nth_lookup.
    destruct (lookup_lt_is_Some_2 l (s + i)) as [x ->]; [lia|done].
  - by rewrite lookup_seq_ge, lookup_take_ge by lia.
Qed.

Lemma fmap_nth_all {A} (l : list A) (d : A) :
  (fun i => nth i l d) <$> seq 0 (length l) = l.
Proof. rewrite fmap_nth_seq by lia. by rewrite drop_0, firstn_all. Qed.

Lemma fmap_nth_others {A} (pre post : list A) (c d : A) :
  (fun i => nth i (pre ++ c :: post) d)
    <$> List.filter (fun i => negb (i =? length pre))
          (seq 0 (length (pre ++ c :: post)))
  = pre ++ post.
Proof.
  assert (length (pre ++ c :: post) = length pre + S (length post)) as Hlen
    by (rewrite length_app; done).
  rewrite filter_seq_ne by lia. rewrite fmap_app, !fmap_nth_seq by lia.
  rewrite Hlen, drop_0, take_app_length. f_equal.
  rewrite (cons_middle c pre post), app_assoc.
  rewrite drop_app_length' by (rewrite length_app; simpl; lia).
  apply take_ge. lia.
Qed.

Lemma nth_path (cs : list (string * string)) (i : nat) :
  nth i cs.*1 "" = (nth i cs ("", "")).1.
Proof. apply (nth_fmap fst cs ("", "")). Qed.

Lemma nth_filename (cs : list (string * string)) (i : nat) :
  nth i cs.*2 "" = (nth i cs ("", "")).2.
Proof. apply (nth_fmap snd cs ("", "")). Qed.

Lemma paths_of_positions (cs : list (string * string)) (idxs : list nat) :
  (fun i => nth i cs.*1 "") <$> idxs = ((fun i => nth i cs ("", "")) <$> idxs).*1.
Proof.
  rewrite <- list_fmap_compose. apply list_fmap_ext. intros _ i _. simpl.
  apply nth_path.
Qed.

Lemma by_filename_candidates (cs : list (string * string)) (i j : nat) :
  by_filename cs.*2 i j -> filename_le (nth i cs ("", "")) (nth j cs ("", "")).
Proof.
  unfold by_filename, filename_le. by rewrite !nth_filename.
Qed.

Lemma no_substring_select (inv : string) (cs : list (string * string)) s :
  inv = "" \/ (forall x, x ∈ cs -> ~ Str.substring_of inv x.2) ->
  select (fun fn => Str.truthy inv && Str.contains inv fn) s cs.*2 = [].
Proof.
  intros Hno. apply select_none, Forall_fmap, Forall_forall. intros x Hx. simpl.
  destruct Hno as [->|Hno]; [done|].
  destruct (Str.contains inv x.2) eqn:Hc; [|apply andb_false_r].
  apply contains_spec in Hc. by destruct (Hno x Hx).
Qed.

Section MergeExecution.
Context `{Collaborators}.

Lemma merge_pdfs_body_plan inv paths fns fs :
  merge_pdfs_body inv paths fns fs
  = match merge_plan inv paths fns with
    | Ok None => (Ok None, fs)
    | Ok (Some plan) => merge_execute plan.1 plan.2 fs
    | Raise e => (Raise e, fs)
    end.
Proof.
  unfold merge_pdfs_body, mbind, io_bind, lift.
  by destruct (merge_plan inv paths fns) as [[[order out]|]|e].
Qed.
End MergeExecution.

(** ** The merge decision *)

(** C1: with at least two candidates, a non-empty invoice marker, and exactly
    one candidate [c] whose file name contains the marker, the decision puts
    [c] first, then the other candidates in ascending order of file name, and
    the output file name is the file name of [c]. *)
Theorem invoice_first_then_sorted
    (inv : string) (pre post : list (string * string)) (c : string * string) :
  inv <> "" ->
  2 <= length (pre ++ c :: post) ->
  Str.substring_of inv c.2 ->
  (forall x, x ∈ pre ++ post -> ~ Str.substring_of inv x.2) ->
  exists rest,
    merge_plan inv (pre ++ c :: post).*1 (pre ++ c :: post).*2
    = Ok (Some (c.1 :: rest.*1, c.2))
    /\ rest ≡ₚ pre ++ post
    /\ StronglySorted filename_le rest.
Proof.
  intros Hinv Hlen Hc Hothers.
  set (cs := pre ++ c :: post) in *.
  assert (invoice_pdf_indices inv cs.*2 = [length pre]) as Hsel.
  { rewrite invoice_pdf_indices_select. unfold cs.
    rewrite fmap_app, fmap_cons, select_app, select_cons.
    rewrite !no_substring_select
      by (right; intros x Hx; apply Hothers, elem_of_app; auto).
    apply contains_spec in Hc. rewrite Hc, andb_true_r.
    destruct inv; [done|]. simpl. by rewrite length_fmap. }
  destruct (merge_plan_invoice_first inv cs.*2 (length pre))
    as (idxs & Hperm & Hsorted & Hplan); [by rewrite length_fmap|done|].
  exists ((fun i => nth i cs ("", "")) <$> idxs). split; [|split].
  - rewrite Hplan by (by rewrite !length_fmap).
    rewrite paths_of_positions, nth_path, nth_filename.
    unfold cs. by rewrite nth_middle.
  - rewrite Hperm, length_fmap. apply reflexive_eq, fmap_nth_others.
  - eapply StronglySorted_fmap; [|exact Hsorted]. apply by_filename_candidates.
Qed.

(** C2: with at least two candidates, when the invoice marker is empty or no
    file name contains it, the decision is the candidates in ascending order
    of file name, and the output file name is that of the first of them, which
    is the smallest file name. *)
Theorem no_invoice_all_sorted (inv : string) (cs : list (string * string)) :
  2 <= length cs ->
  inv = "" \/ (forall x, x ∈ cs -> ~ Str.substring_of inv x.2) ->
  exists sorted_cs first,
    merge_plan inv cs.*1 cs.*2 = Ok (Some (sorted_cs.*1, first.2))
    /\ sorted_cs ≡ₚ cs
    /\ StronglySorted filename_le sorted_cs
    /\ head sorted_cs = Some first
    /\ forall x, x ∈ cs -> Str.le first.2 x.2.
Proof.
  intros Hlen Hno.
  destruct (merge_plan_all_sorted inv cs.*2)
    as (idxs & Hperm & Hsorted & Hplan); [by rewrite length_fmap| |].
  { rewrite invoice_pdf_indices_select. by apply no_substring_select. }
  set (sorted_cs := (fun i => nth i cs ("", "")) <$> idxs).
  assert (sorted_cs ≡ₚ cs) as Hcs.
  { unfold sorted_cs. rewrite Hperm, length_fmap. apply reflexive_eq, fmap_nth_all. }
  assert (StronglySorted filename_le sorted_cs) as Hs.
  { eapply StronglySorted_fmap; [|exact Hsorted]. apply by_filename_candidates. }
  destruct idxs as [|i idxs].
  { apply Permutation_length in Hperm. rewrite length_seq, length_fmap in Hperm.
    simpl in Hperm. lia. }
  exists sorted_cs, (nth i cs ("", "")). repeat split; try done.
  - rewrite Hplan by (by rewrite !length_fmap).
    by rewrite paths_of_positions, nth_filename.
  - intros x Hx. rewrite <- Hcs in Hx. unfold sorted_cs in Hx, Hs.
    rewrite fmap_cons in Hx, Hs. apply StronglySorted_inv in Hs as [_ Hall].
    apply elem_of_cons in Hx as [->|Hx]; [apply Str_le_refl|].
    by eapply Forall_forall in Hall.
Qed.

(** C3: when the invoice marker is non-empty and the file names of two
    different candidates contain it, the decision is to return [None]; the
    body of [merge_pdfs] returns [None] without raising and leaves the file
    system as it is. *)
Theorem ambiguous_invoice_no_merge
    (inv : string) (cs : list (string * string)) (i j : nat) (a b : string * string) :
  inv <> "" ->
  i <> j ->
  cs !! i = Some a -> cs !! j = Some b ->
  Str.substring_of inv a.2 -> Str.substring_of inv b.2 ->
  merge_plan inv cs.*1 cs.*2 = Ok None
  /\ forall (H : Collaborators) fs,
       merge_pdfs_body inv cs.*1 cs.*2 fs = (Ok None, fs)
       /\ merge_pdfs inv cs.*1 cs.*2 fs = (None, fs).
Proof.
  intros Hinv Hij Ha Hb Hina Hinb.
  assert (merge_plan inv cs.*1 cs.*2 = Ok None) as Hplan.
  { apply merge_plan_ambiguous; [done|].
    assert (forall k x, cs !! k = Some x -> Str.substring_of inv x.2 ->
                        k ∈ invoice_pdf_indices inv cs.*2) as Hin.
    { intros k x Hk Hx. rewrite invoice_pdf_indices_select.
      apply (select_elem _ 0 cs.*2 k x.2).
      - by rewrite list_lookup_fmap, Hk.
      - apply contains_spec in Hx. rewrite Hx. by destruct inv. }
    pose proof (Hin i a Ha Hina) as Hi. pose proof (Hin j b Hb Hinb) as Hj.
    destruct (invoice_pdf_indices inv cs.*2) as [|k [|k' l]]; simpl; [|exfalso|lia].
    - by apply elem_of_nil in Hi.
    - apply list_elem_of_singleton in Hi, Hj. congruence. }
  split; [done|]. intros H fs.
  unfold merge_pdfs, except_return_None.
  by rewrite merge_pdfs_body_plan, Hplan.
Qed.

(** C4: with no candidate or a single one the decision is to return [None],
    whatever the invoice marker. *)
Theorem at_most_one_candidate_no_merge (inv : string) (cs : list (string * string)) :
  length cs <= 1 ->
  merge_plan inv cs.*1 cs.*2 = Ok None
  /\ forall (H : Collaborators) fs, merge_pdfs inv cs.*1 cs.*2 fs = (None, fs).
Proof.
  intros Hlen.
  assert (merge_plan inv cs.*1 cs.*2 = Ok None) as Hplan
    by (apply merge_plan_short; by rewrite length_fmap).
  split; [done|]. intros H fs.
  unfold merge_pdfs, except_return_None.
  by rewrite merge_pdfs_body_plan, Hplan.
Qed.

(** C10: the decision is a function of the invoice marker and the file names.
    They fix either [None] or a permutation [idxs] of the positions and an
    output file name; for every list of sources of the same length the
    decision is the sources at [idxs] with that name, and in every file system
    [merge_pdfs] hands exactly these to the merger. *)
Theorem merge_decision_depends_on_filenames_only (inv : string) (fns : list string) :
  exists d : option (list nat * string),
    (forall idxs out, d = Some (idxs, out) -> idxs ≡ₚ seq 0 (length fns))
    /\ forall paths, length paths = length fns ->
         merge_plan inv paths fns = Ok (realize paths <$> d)
         /\ forall (H : Collaborators) fs,
              merge_pdfs_body inv paths fns fs
              = match d with
                | None => (Ok None, fs)
                | Some d => merge_execute (realize paths d).1 (realize paths d).2 fs
                end.
Proof.
  assert (forall d : option (list nat * string),
             (forall paths, length paths = length fns ->
                            merge_plan inv paths fns = Ok (realize paths <$> d)) ->
             forall paths, length paths = length fns ->
               merge_plan inv paths fns = Ok (realize paths <$> d)
               /\ forall (H : Collaborators) fs,
                    merge_pdfs_body inv paths fns fs
                    = match d with
                      | None => (Ok None, fs)
                      | Some d => merge_execute (realize paths d).1 (realize paths d).2 fs
                      end) as Hboth.
  { intros d Hd paths Hlen. split; [by apply Hd|]. intros H fs.
    rewrite merge_pdfs_body_plan, Hd by done. by destruct d. }
  destruct (decide (length fns <= 1)) as [Hshort|Hlong].
  { exists None. split; [done|]. apply Hboth. intros paths Hlen.
    apply merge_plan_short. lia. }
  destruct (invoice_pdf_indices inv fns) as [|k [|k' l]] eqn:Hsel.
  - destruct (merge_plan_all_sorted inv fns) as (idxs & Hperm & _ & Hplan);
      [lia|done|].
    exists (Some (idxs, nth (hd 0 idxs) fns "")). split; [by intros ?? [= <- _]|].
    apply Hboth. intros paths Hlen. by rewrite Hplan.
  - destruct (merge_plan_invoice_first inv fns k) as (rest & Hperm & _ & Hplan);
      [lia|done|].
    exists (Some (k :: rest, nth k fns "")). split.
    + intros ?? [= <- _]. rewrite Hperm. apply cons_filter_seq_ne.
      assert (k ∈ invoice_pdf_indices inv fns) as Hin by (rewrite Hsel; left).
      rewrite invoice_pdf_indices_select in Hin. apply select_bound in Hin. lia.
    + apply Hboth. intros paths Hlen. by rewrite Hplan.
  - exists None. split; [done|]. apply Hboth. intros paths Hlen.
    apply merge_plan_ambiguous; [|rewrite Hsel; simpl; lia].
    intros ->. by rewrite invoice_pdf_indices_select, select_none in Hsel
      by (by apply Forall_forall).
Qed.

(** ** The relay of one message *)

Section RelayProperties.
Context `{Collaborators}.

Lemma get_filename_Some part name :
  get_filename part = Some name -> part_get_filename part = Ok (Some name).
Proof.
  unfold get_filename. destruct (part_get_filename part) as [[n|]|e]; congruence.
Qed.

(** What the first walk does with a part that passes its three tests. *)
Lemma collect_pdf_attachments_counted self m p parts acc :
  counted_as_pdf p = true ->
  collect_pdf_attachments self m (p :: parts) acc
  = ((fun fs => (Ok tt, if simulate self then simulation_save m p fs else fs));;
     payload ← lift (get_payload p);
     collect_pdf_attachments self m parts (acc ++ [payload])).
Proof.
  unfold counted_as_pdf. intros [[Hm Hd]%andb_true_iff Hf]%andb_true_iff.
  apply negb_true_iff in Hm. apply bool_decide_eq_true in Hd as [cd Hd].
  cbn [collect_pdf_attachments]. rewrite Hm, Hd.
  destruct (get_filename p) as [name|] eqn:Hname; [|done].
  rewrite (get_filename_Some _ _ Hname). io_unfold. by rewrite Hf.
Qed.

(** A part that is not counted is passed over, unless asking for its file
    name raises. *)
Lemma collect_pdf_attachments_not_counted self m p parts acc fs :
  counted_as_pdf p = false ->
  collect_pdf_attachments self m (p :: parts) acc fs
  = collect_pdf_attachments self m parts acc fs
  \/ exists e,
       part_get_filename p = Raise e
       /\ collect_pdf_attachments self m (p :: parts) acc fs = (Raise e, fs).
Proof.
  unfold counted_as_pdf, get_filename. intros Hc. cbn [collect_pdf_attachments].
  destruct (String.eqb (get_content_maintype p) "multipart"); [by left|].
  destruct (content_disposition (message_headers p)) as [cd|]; [|by left].
  rewrite bool_decide_eq_true_2 in Hc by eauto. io_unfold.
  destruct (part_get_filename p) as [[name|]|e]; simpl in *; [|by left|by eauto].
  rewrite Hc. by left.
Qed.

Lemma relay_email_collect_raises self m fs e fs' :
  collect_pdf_attachments self m (walk m) [] fs = (Raise e, fs') ->
  (relay_email self m fs).1 = None.
Proof.
  intros Hc. unfold relay_email, except_return_None, relay_email_body.
  io_unfold. destruct (sanitize_subject _); [|done]. by rewrite Hc.
Qed.

(** A counted part whose payload raises ends the first walk. *)
Lemma collect_pdf_attachments_raises self m parts acc fs :
  (exists part e, part ∈ parts /\ counted_as_pdf part = true
                  /\ get_payload part = Raise e) ->
  exists e fs', collect_pdf_attachments self m parts acc fs = (Raise e, fs').
Proof.
  revert acc fs. induction parts as [|p parts IH]; intros acc fs (part & e & Hin & Hc & Hr).
  { by apply elem_of_nil in Hin. }
  apply elem_of_cons in Hin as [->|Hin].
  - rewrite collect_pdf_attachments_counted by done. io_unfold. rewrite Hr. eauto.
  - assert (forall acc fs, exists e fs',
               collect_pdf_attachments self m parts acc fs = (Raise e, fs')) as IH'
      by (intros; apply IH; eauto).
    destruct (counted_as_pdf p) eqn:Hp.
    + rewrite collect_pdf_attachments_counted by done. io_unfold.
      destruct (get_payload p); [apply IH'|eauto].
    + destruct (collect_pdf_attachments_not_counted self m p parts acc fs Hp)
        as [->|(e' & _ & ->)]; [apply IH'|eauto].
Qed.

(** The body scan, when the first text part is plain text. *)
Lemma extract_body_plain_first pre h data post :
  Forall (fun p => get_content_type p <> "text/plain"
                   /\ get_content_type p <> "text/html") pre ->
  get_content_type (Leaf h (Ok data)) = "text/plain" ->
  extract_body (pre ++ Leaf h (Ok data) :: post) "" "plain"
  = Ok (decode_utf8_ignore data, "plain").
Proof.
  intros Hpre Hct. induction Hpre as [|p pre [Hp1 Hp2] _ IH]; simpl.
  - by rewrite Hct.
  - apply String.eqb_neq in Hp1, Hp2. by rewrite Hp1, Hp2.
Qed.

(** The body scan, when an HTML part comes just before the first plain
    text part: the plain text is kept, [body_type] stays ["html"]. *)
Lemma extract_body_html_then_plain pre h1 data1 h2 data2 post :
  Forall (fun p => get_content_type p <> "text/plain"
                   /\ get_content_type p <> "text/html") pre ->
  get_content_type (Leaf h1 (Ok data1)) = "text/html" ->
  get_content_type (Leaf h2 (Ok data2)) = "text/plain" ->
  extract_body (pre ++ Leaf h1 (Ok data1) :: Leaf h2 (Ok data2) :: post) "" "plain"
  = Ok (decode_utf8_ignore data2, "html").
Proof.
  intros Hpre Hct1 Hct2. induction Hpre as [|p pre [Hp1 Hp2] _ IH]; simpl.
  - by rewrite Hct1, Hct2.
  - apply String.eqb_neq in Hp1, Hp2. by rewrite Hp1, Hp2.
Qed.

End RelayProperties.

(** C5, at a message with two PDF files sent as [application/octet-stream]:
    the first walk counts two PDF attachments, no merge takes place, and the
    outbound message carries no attachment, where the claim requires two. *)
Theorem octet_stream_pdfs_not_attached (H : Collaborators) (self : config)
    (fs : gmap string (list Byte.byte)) :
  (collect_pdf_attachments self Sample.octet_stream_pdfs
     (walk Sample.octet_stream_pdfs) [] fs).1
  = Ok [Some (Sample.data "%PDF-A"); Some (Sample.data "%PDF-B")]
  /\ (merge_block self Sample.octet_stream_pdfs
        [Some (Sample.data "%PDF-A"); Some (Sample.data "%PDF-B")] fs).1
     = (Ok None, [])
  /\ exists msg,
       (relay_email self Sample.octet_stream_pdfs fs).1 = deliver self msg
       /\ attachments msg = [].
Proof.
  split; [reflexivity|]. split; [reflexivity|].
  eexists. split; [reflexivity|reflexivity].
Qed.

(** C6, at a message whose HTML part comes before its plain text part: the
    outbound body is the plain text, attached with body type ["html"], where
    the claim requires plain text. *)
Theorem plain_body_after_html_marked_html (H : Collaborators) (self : config)
    (fs : gmap string (list Byte.byte)) :
  extract_body (walk Sample.html_then_plain) "" "plain"
  = Ok (decode_utf8_ignore (Sample.data "hi"), "html")
  /\ (relay_email self Sample.html_then_plain fs).1
     = deliver self
         {| msg_From := original_from_email self;
            msg_To := relay_to_email self;
            msg_Subject := "March";
            msg_X_Original_Sender := "sender@example.org";
            msg_payload := attach_body (decode_utf8_ignore (Sample.data "hi")) "html" |}.
Proof. split; reflexivity. Qed.

(** ** Temporary files *)

Section TemporaryFiles.
Context `{Collaborators}.
Implicit Types (fs : gmap string (list Byte.byte)) (p : string).

Lemma unlink_step fs p :
  (if decide (is_Some (fs !! p)) then delete p fs else fs) = delete p fs.
Proof.
  destruct (decide (is_Some (fs !! p))) as [|Hnone]; [done|].
  symmetry. apply delete_id. by apply eq_None_not_Some.
Qed.

Lemma unlink_all_cons p paths fs :
  unlink_all (p :: paths) fs = unlink_all paths (delete p fs).
Proof. unfold unlink_all. simpl. by rewrite unlink_step. Qed.

Lemma unlink_all_is_Some paths fs p :
  is_Some (unlink_all paths fs !! p) -> is_Some (fs !! p) /\ p ∉ paths.
Proof.
  revert fs. induction paths as [|q paths IH]; intros fs.
  - intros Hp. split; [done|]. apply not_elem_of_nil.
  - rewrite unlink_all_cons. intros [Hp Hnot]%IH.
    apply lookup_delete_is_Some in Hp as [Hne Hp].
    split; [done|]. rewrite not_elem_of_cons. split; [congruence|done].
Qed.

Lemma unlink_all_gone paths fs p : p ∈ paths -> unlink_all paths fs !! p = None.
Proof.
  intros Hin. apply eq_None_not_Some. by intros [_ Hnot]%unlink_all_is_Some.
Qed.

Lemma for_each_read_file paths fs :
  exists r, for_each read_file paths fs = (r, fs).
Proof.
  induction paths as [|p paths [r IH]]; simpl; [by eexists|].
  io_unfold. unfold read_file at 1.
  destruct (fs !! p); [|by eexists].
  rewrite IH. destruct r; by eexists.
Qed.

End TemporaryFiles.

(** C9, at a message with two PDF attachments and a third [application/pdf]
    part whose payload fails to decode while its temporary file is written
    (line 267): the exception leaves the second walk before the path is
    appended to [pdf_paths] (line 268), the [finally] clause removes the two
    listed files, and the file just made by [NamedTemporaryFile] stays when
    control is back in [relay_email] and after it has returned, where the
    claim requires every temporary source to be deleted on the failure
    path. *)
Theorem temporary_source_left_behind :
  let result :=
    merge_block (H := Sample.collaborators) Sample.self Sample.undecodable_source
      [Some (Sample.data "%PDF-A"); Some (Sample.data "%PDF-B")] ∅ in
  result.1 = (Raise DecodeError, ["/tmp/tmp0.pdf"; "/tmp/tmp1.pdf"])
  /\ result.2 !! "/tmp/tmp0.pdf" = None
  /\ result.2 !! "/tmp/tmp1.pdf" = None
  /\ result.2 !! "/tmp/tmp2.pdf" = Some []
  /\ relay_email (H := Sample.collaborators) Sample.self Sample.undecodable_source ∅
     = (None, {["/tmp/tmp2.pdf" := []]}).
Proof. vm_compute. repeat split; reflexivity. Qed.

(** ** Failures while relaying *)

Section RelayFailures.
Context `{Collaborators}.

(** C7, as the code has it: when the payload of a part counted as a PDF
    attachment fails to decode, the part is not skipped; the exception ends
    the relay of the message, and [relay_email] returns [None]. *)
Theorem undecodable_attachment_aborts_message self m fs part e :
  part ∈ walk m ->
  counted_as_pdf part = true ->
  get_payload part = Raise e ->
  (relay_email self m fs).1 = None.
Proof.
  intros Hin Hc Hr.
  destruct (collect_pdf_attachments_raises self m (walk m) [] fs) as (e' & fs' & Hraise);
    [by eauto|].
  by rewrite (relay_email_collect_raises _ _ _ _ _ Hraise).
Qed.

Lemma decodable_application_pdf part :
  part_decodes part = true -> is_application_pdf part = true ->
  exists data, get_payload part = Ok (Some data).
Proof.
  destruct part as [h [data|e]|h parts]; simpl; [by eauto|done|].
  unfold is_application_pdf, get_content_maintype. simpl.
  intros [->%String.eqb_eq| ->%String.eqb_eq]%orb_true_iff; done.
Qed.

Lemma decodable_text part subtype :
  part_decodes part = true ->
  String.eqb (get_content_type part) ("text/" +:+ subtype) = true ->
  exists data, get_payload part = Ok (Some data).
Proof.
  destruct part as [h [data|e]|h parts]; simpl; [by eauto|done|].
  unfold get_content_type, get_content_maintype. simpl.
  intros [->%String.eqb_eq| ->%String.eqb_eq]%orb_true_iff; done.
Qed.

End RelayFailures.

(** C8, at a message with two [application/pdf] attachments, the second of
    which the merger rejects, and a third PDF sent as
    [application/octet-stream]: the first walk extracts three candidates, two
    temporary sources are written, the merge raises, [merge_pdfs] returns
    [None] and the message is relayed; but only the two [application/pdf]
    parts are attached, and the candidate [c.pdf] is not, where the claim
    requires every candidate to be attached. *)
Theorem failed_merge_drops_a_candidate :
  let m := Sample.corrupt_and_octet_stream in
  let sources := materialize (H := Sample.collaborators) (walk m) [] [] ∅ in
  (collect_pdf_attachments (H := Sample.collaborators) Sample.self m (walk m) [] ∅).1
  = Ok [Some (Sample.data "%PDF-B"); Some []; Some (Sample.data "%PDF-C")]
  /\ sources.1 = (Ok tt, (["/tmp/tmp0.pdf"; "/tmp/tmp1.pdf"], ["b.pdf"; "a.pdf"]))
  /\ (merge_pdfs_body (H := Sample.collaborators) "invoice"
        ["/tmp/tmp0.pdf"; "/tmp/tmp1.pdf"] ["b.pdf"; "a.pdf"] sources.2).1
     = Raise PdfReadError
  /\ merge_pdfs (H := Sample.collaborators) "invoice"
       ["/tmp/tmp0.pdf"; "/tmp/tmp1.pdf"] ["b.pdf"; "a.pdf"] sources.2
     = (None, sources.2)
  /\ relay_email (H := Sample.collaborators) Sample.self m ∅
     = (Some {| msg_From := "billing@example.org";
                msg_To := "archive@example.org";
                msg_Subject := "March";
                msg_X_Original_Sender := "sender@example.org";
                msg_payload :=
                  [MIMEApplication (Sample.data "%PDF-B") "b.pdf";
                   MIMEApplication [] "a.pdf";
                   MIMEText "see attached" "plain"] |},
        ∅).
Proof. vm_compute. repeat split; reflexivity. Qed.


(** ** The scenarios of the specification and instances of the theorems *)

Example scenario_A :
  merge_plan "" ["/tmp/1"; "/tmp/2"] ["b.pdf"; "a.pdf"]
  = Ok (Some (["/tmp/2"; "/tmp/1"], "a.pdf")).
Proof. reflexivity. Qed.

Example scenario_B :
  merge_plan "invoice" ["/tmp/1"; "/tmp/2"; "/tmp/3"]
    ["invoice_123.pdf"; "receipt.pdf"; "note.pdf"]
  = Ok (Some (["/tmp/1"; "/tmp/3"; "/tmp/2"], "invoice_123.pdf")).
Proof. reflexivity. Qed.

Example scenario_C :
  merge_plan "invoice" ["/tmp/1"; "/tmp/2"] ["invoice_1.pdf"; "invoice_2.pdf"] = Ok None.
Proof. reflexivity. Qed.

Example scenario_D : merge_plan "invoice" ["/tmp/1"] ["only.pdf"] = Ok None.
Proof. reflexivity. Qed.

(** Equal file names keep the order of the candidates. *)
Example equal_names_keep_order :
  merge_plan "" ["/tmp/1"; "/tmp/2"; "/tmp/3"] ["b.pdf"; "a.pdf"; "b.pdf"]
  = Ok (Some (["/tmp/2"; "/tmp/1"; "/tmp/3"], "a.pdf")).
Proof. reflexivity. Qed.

(** A merge that succeeds: one attachment, named after the invoice. *)
Example relay_merged :
  (relay_email (H := Sample.collaborators) Sample.self Sample.invoice_and_note ∅).1
  = Some {| msg_From := "billing@example.org";
            msg_To := "archive@example.org";
            msg_Subject := "March";
            msg_X_Original_Sender := "sender@example.org";
            msg_payload :=
              [MIMEApplication (Sample.data "%PDF-I%PDF-N") "invoice_7.pdf"] |}.
Proof. vm_compute. reflexivity. Qed.

(** The plain text part first: the body is plain text. *)
Example relay_plain_then_html (H : Collaborators) (self : config)
    (fs : gmap string (list Byte.byte)) :
  extract_body (walk Sample.plain_then_html) "" "plain"
  = Ok (decode_utf8_ignore (Sample.data "hi"), "plain").
Proof. reflexivity. Qed.

(** With a merged file the only attachment is that file, under the base name
    of its path. *)
Lemma attach_pdfs_merged (H : Collaborators) m a atts path content
    (fs : gmap string (list Byte.byte)) :
  Str.truthy path = true ->
  fs !! path = Some content ->
  attach_pdfs m (a :: atts) (Some path) fs
  = (Ok [MIMEApplication content (basename path)], fs).
Proof.
  intros Hpath Hfile. unfold attach_pdfs. rewrite Hpath.
  io_unfold. unfold read_file. by rewrite Hfile.
Qed.

Lemma invoice_first_then_sorted_witness :
  exists rest,
    merge_plan "invoice" ["/tmp/1"; "/tmp/2"; "/tmp/3"]
      ["receipt.pdf"; "invoice_123.pdf"; "note.pdf"]
    = Ok (Some ("/tmp/2" :: rest.*1, "invoice_123.pdf"))
    /\ rest ≡ₚ [("/tmp/1", "receipt.pdf"); ("/tmp/3", "note.pdf")]
    /\ StronglySorted filename_le rest.
Proof.
  apply (invoice_first_then_sorted "invoice" [("/tmp/1", "receipt.pdf")]
           [("/tmp/3", "note.pdf")] ("/tmp/2", "invoice_123.pdf")).
  - discriminate.
  - simpl. lia.
  - exists "", "_123.pdf". reflexivity.
  - intros x Hx Hsub. apply contains_spec in Hsub.
    apply list_elem_of_In in Hx. simpl in Hx.
    destruct Hx as [<-|[<-|[]]]; vm_compute in Hsub; discriminate.
Defined.

Lemma no_invoice_all_sorted_witness :
  exists sorted_cs first,
    merge_plan "" ["/tmp/1"; "/tmp/2"] ["b.pdf"; "a.pdf"]
    = Ok (Some (sorted_cs.*1, first.2))
    /\ sorted_cs ≡ₚ [("/tmp/1", "b.pdf"); ("/tmp/2", "a.pdf")]
    /\ StronglySorted filename_le sorted_cs
    /\ head sorted_cs = Some first
    /\ forall x, x ∈ [("/tmp/1", "b.pdf"); ("/tmp/2", "a.pdf")] -> Str.le first.2 x.2.
Proof.
  apply (no_invoice_all_sorted "" [("/tmp/1", "b.pdf"); ("/tmp/2", "a.pdf")]).
  - simpl. lia.
  - left. reflexivity.
Defined.

Lemma ambiguous_invoice_no_merge_witness :
  merge_plan "invoice" ["/tmp/1"; "/tmp/2"] ["invoice_1.pdf"; "invoice_2.pdf"] = Ok None
  /\ forall (H : Collaborators) fs,
       merge_pdfs_body "invoice" ["/tmp/1"; "/tmp/2"] ["invoice_1.pdf"; "invoice_2.pdf"] fs
       = (Ok None, fs)
       /\ merge_pdfs "invoice" ["/tmp/1"; "/tmp/2"] ["invoice_1.pdf"; "invoice_2.pdf"] fs
          = (None, fs).
Proof.
  apply (ambiguous_invoice_no_merge "invoice"
           [("/tmp/1", "invoice_1.pdf"); ("/tmp/2", "invoice_2.pdf")] 0 1
           ("/tmp/1", "invoice_1.pdf") ("/tmp/2", "invoice_2.pdf")).
  - discriminate.
  - lia.
  - reflexivity.
  - reflexivity.
  - exists "", "_1.pdf". reflexivity.
  - exists "", "_2.pdf". reflexivity.
Defined.

Lemma at_most_one_candidate_no_merge_witness :
  merge_plan "invoice" ["/tmp/1"] ["invoice.pdf"] = Ok None
  /\ forall (H : Collaborators) fs,
       merge_pdfs "invoice" ["/tmp/1"] ["invoice.pdf"] fs = (None, fs).
Proof.
  apply (at_most_one_candidate_no_merge "invoice" [("/tmp/1", "invoice.pdf")]).
  simpl. lia.
Defined.

Lemma merge_decision_depends_on_filenames_only_witness :
  exists d : option (list nat * string),
    merge_plan "invoice" ["/tmp/1"; "/tmp/2"] ["note.pdf"; "invoice_7.pdf"]
    = Ok (realize ["/tmp/1"; "/tmp/2"] <$> d)
    /\ merge_plan "invoice" ["/var/a"; "/var/b"] ["note.pdf"; "invoice_7.pdf"]
       = Ok (realize ["/var/a"; "/var/b"] <$> d).
Proof.
  destruct (merge_decision_depends_on_filenames_only "invoice"
              ["note.pdf"; "invoice_7.pdf"]) as (d & _ & Hd).
  exists d. split.
  - apply (Hd ["/tmp/1"; "/tmp/2"]). reflexivity.
  - apply (Hd ["/var/a"; "/var/b"]). reflexivity.
Defined.

(** The claim C7 fails at a message with two PDF attachments of which the
    first does not decode: the message is not relayed at all, the second
    attachment included. *)
Lemma undecodable_part_not_skipped :
  counted_as_pdf
    (Leaf (Sample.part "application" "pdf" (Some "a.pdf")) (Raise DecodeError)) = true
  /\ (relay_email (H := Sample.collaborators) Sample.self Sample.undecodable_first ∅).1
     = None.
Proof. split; vm_compute; reflexivity. Qed.

Lemma undecodable_attachment_aborts_message_witness :
  (relay_email (H := Sample.collaborators) Sample.self Sample.undecodable_first
     (<["/srv/keep" := Sample.data "x"]> ∅)).1 = None.
Proof.
  apply (undecodable_attachment_aborts_message (H := Sample.collaborators)
           Sample.self Sample.undecodable_first _
           (Leaf (Sample.part "application" "pdf" (Some "a.pdf")) (Raise DecodeError))
           DecodeError).
  - apply list_elem_of_In. simpl. right. left. reflexivity.
  - reflexivity.
  - reflexivity.
Defined.

(** A message whose Subject is a [Header] object is not relayed: line 206
    raises before the first walk. *)
Example eight_bit_subject_not_relayed :
  relay_email (H := Sample.collaborators) Sample.self Sample.eight_bit_subject ∅
  = (None, ∅).
Proof. reflexivity. Qed.

(** A message with a part whose [get_filename()] raises is not relayed. *)
Example malformed_filename_not_relayed :
  relay_email (H := Sample.collaborators) Sample.self Sample.malformed_filename ∅
  = (None, ∅).
Proof. reflexivity. Qed.

(** An output file name in a directory that does not exist: the merged file
    cannot be written, [merge_pdfs] returns [None] and the two files are
    attached one by one. *)
Example output_in_missing_directory_not_merged :
  relay_email (H := Sample.collaborators) Sample.self Sample.invoice_in_folder ∅
  = (Some {| msg_From := "billing@example.org";
             msg_To := "archive@example.org";
             msg_Subject := "March";
             msg_X_Original_Sender := "sender@example.org";
             msg_payload :=
               [MIMEApplication (Sample.data "%PDF-N") "note.pdf";
                MIMEApplication (Sample.data "%PDF-I") "2024/invoice_7.pdf"] |},
     ∅).
Proof. vm_compute. reflexivity. Qed.

(** * Further properties of [relay_email] and [merge_pdfs] *)

(** ** The body *)

Section Body.
Context `{Collaborators}.

(** Once a body is set, parts that are not plain text leave it alone. *)
Lemma extract_body_no_plain_truthy parts body body_type :
  existsb is_text_plain parts = false ->
  Str.truthy body = true ->
  extract_body parts body body_type = Ok (body, body_type).
Proof.
  intros Hplain Hbody. induction parts as [|p parts IH]; simpl; [done|].
  simpl in Hplain. apply orb_false_iff in Hplain as [Hp Hplain].
  unfold is_text_plain in Hp. rewrite Hp, Hbody, andb_false_r. by apply IH.
Qed.

Lemma extract_body_no_text parts body body_type :
  existsb is_text_plain parts = false ->
  existsb is_text_html parts = false ->
  extract_body parts body body_type = Ok (body, body_type).
Proof.
  intros Hplain Hhtml. induction parts as [|p parts IH]; simpl; [done|].
  simpl in Hplain, Hhtml.
  apply orb_false_iff in Hplain as [Hp Hplain].
  apply orb_false_iff in Hhtml as [Hh Hhtml].
  unfold is_text_plain in Hp. unfold is_text_html in Hh. rewrite Hp, Hh. by apply IH.
Qed.

Lemma extract_body_until_plain pre h data post body body_type :
  forallb part_decodes pre = true ->
  existsb is_text_plain pre = false ->
  is_text_plain (Leaf h (Ok data)) = true ->
  extract_body (pre ++ Leaf h (Ok data) :: post) body body_type
  = Ok (decode_utf8_ignore data,
        if negb (Str.truthy body) && existsb is_text_html pre
        then "html" else body_type).
Proof.
  intros Hdec Hplain Hleaf. revert body body_type.
  induction pre as [|p pre IH]; intros body body_type; simpl.
  { unfold is_text_plain in Hleaf. rewrite Hleaf. by rewrite andb_false_r. }
  simpl in Hdec, Hplain.
  apply andb_true_iff in Hdec as [Hp Hdec].
  apply orb_false_iff in Hplain as [Hnp Hplain].
  unfold is_text_plain in Hnp. rewrite Hnp.
  destruct (String.eqb (get_content_type p) "text/html") eqn:Hhtml.
  - unfold is_text_html at 1. rewrite Hhtml. simpl.
    destruct (Str.truthy body) eqn:Hbody; simpl.
    + rewrite IH by done. by rewrite Hbody.
    + destruct (decodable_text p "html" Hp Hhtml) as [d ->]. simpl.
      rewrite IH by done. by destruct (_ && _).
  - unfold is_text_html at 1. rewrite Hhtml. simpl. by rewrite IH.
Qed.

(** X1: the first [text/plain] part in walk order gives the body, whatever
    follows it; the body type is ["html"] exactly when a [text/html] part
    comes before it. *)
Theorem first_plain_text_is_the_body pre h data post :
  forallb part_decodes pre = true ->
  existsb is_text_plain pre = false ->
  is_text_plain (Leaf h (Ok data)) = true ->
  extract_body (pre ++ Leaf h (Ok data) :: post) "" "plain"
  = Ok (decode_utf8_ignore data,
        if existsb is_text_html pre then "html" else "plain").
Proof. intros. by rewrite extract_body_until_plain. Qed.

(** X2: without a [text/plain] part, the first [text/html] part whose text is
    not empty gives the body, with body type ["html"]; later HTML parts are
    not read. *)
Theorem html_is_the_fallback pre h data post :
  existsb is_text_plain (pre ++ Leaf h (Ok data) :: post) = false ->
  existsb is_text_html pre = false ->
  is_text_html (Leaf h (Ok data)) = true ->
  Str.truthy (decode_utf8_ignore data) = true ->
  extract_body (pre ++ Leaf h (Ok data) :: post) "" "plain"
  = Ok (decode_utf8_ignore data, "html").
Proof.
  intros Hplain Hpre Hleaf Hbody.
  rewrite existsb_app in Hplain. apply orb_false_iff in Hplain as [Hplain1 Hplain2].
  simpl in Hplain2. apply orb_false_iff in Hplain2 as [Hnp Hplain2].
  induction pre as [|p pre IH]; simpl.
  - unfold is_text_plain in Hnp. unfold is_text_html in Hleaf.
    rewrite Hnp, Hleaf. simpl. by apply extract_body_no_plain_truthy.
  - simpl in Hplain1, Hpre.
    apply orb_false_iff in Hplain1 as [Hp1 Hplain1].
    apply orb_false_iff in Hpre as [Hp2 Hpre].
    unfold is_text_plain in Hp1. unfold is_text_html in Hp2.
    rewrite Hp1, Hp2. simpl. by apply IH.
Qed.

End Body.

(** ** The attachments *)

Section Attachments.
Context `{Collaborators}.

Lemma sanitize_subject_str m :
  subject_is_str m = true ->
  exists safe_subject,
    sanitize_subject (subject_or_default (Subject (message_headers m))) = Ok safe_subject.
Proof.
  unfold subject_is_str, subject_or_default.
  destruct (Subject (message_headers m)) as [[s|raw]|]; [|done|]; intros _.
  - destruct (Str.truthy s); by eexists.
  - by eexists.
Qed.

Lemma collect_pdf_attachments_nothing self m parts acc fs :
  forallb filename_readable parts = true ->
  existsb counted_as_pdf parts = false ->
  collect_pdf_attachments self m parts acc fs = (Ok acc, fs).
Proof.
  revert acc. induction parts as [|p parts IH]; intros acc Hread Hnone; [done|].
  simpl in Hread, Hnone.
  apply andb_true_iff in Hread as [Hr Hread].
  apply orb_false_iff in Hnone as [Hp Hnone].
  destruct (collect_pdf_attachments_not_counted self m p parts acc fs Hp)
    as [->|(e & He & _)]; [by apply IH|].
  unfold filename_readable in Hr. by rewrite He in Hr.
Qed.

Lemma collect_pdf_attachments_payloads self m parts acc fs atts fs' :
  collect_pdf_attachments self m parts acc fs = (Ok atts, fs') ->
  exists new,
    atts = acc ++ new
    /\ Forall2 (fun part att => get_payload part = Ok att)
         (List.filter counted_as_pdf parts) new
    /\ fs' = if simulate self
             then foldl (fun fs part => simulation_save m part fs) fs
                    (List.filter counted_as_pdf parts)
             else fs.
Proof.
  revert acc fs. induction parts as [|p parts IH]; intros acc fs.
  { intros [= <- <-]. exists []. rewrite app_nil_r. by destruct (simulate self). }
  cbn [List.filter]. destruct (counted_as_pdf p) eqn:Hc.
  - rewrite collect_pdf_attachments_counted by done.
    io_unfold. destruct (get_payload p) as [payload|e] eqn:Hp; [|done].
    intros (new & -> & Hnew & ->)%IH. exists (payload :: new).
    split; [by rewrite <- app_assoc|]. split; [by constructor|].
    by destruct (simulate self).
  - destruct (collect_pdf_attachments_not_counted self m p parts acc fs Hc)
      as [->|(e & _ & ->)]; [apply IH|done].
Qed.

(** X3: the first walk gives one entry per part that is not a multipart, has
    a disposition header and a file name ending in [.pdf] in any case, in walk
    order, each the decoded payload of its part.  In simulation mode it has
    stored these parts one after the other; otherwise it leaves the file
    system as it is. *)
Theorem pdf_attachments_are_the_counted_parts self m fs pdf_attachments fs' :
  collect_pdf_attachments self m (walk m) [] fs = (Ok pdf_attachments, fs') ->
  Forall2 (fun part att => get_payload part = Ok att)
    (List.filter counted_as_pdf (walk m)) pdf_attachments
  /\ fs' = if simulate self
           then foldl (fun fs part => simulation_save m part fs) fs
                  (List.filter counted_as_pdf (walk m))
           else fs.
Proof.
  intros (new & -> & Hnew & Hfs)%collect_pdf_attachments_payloads. by split.
Qed.

(** X4: whenever [relay_email] returns a message, its sender and recipient
    are the configured ones, its subject is the original one, or
    ["Relayed Email"] when that is absent or empty, and [X-Original-Sender] is
    the original [From] header, or ["Unknown Sender"] when that is absent. *)
Theorem relayed_message_headers self m fs msg :
  (relay_email self m fs).1 = Some msg ->
  exists payload, msg = outbound_message self m payload.
Proof.
  unfold relay_email, except_return_None, relay_email_body. io_unfold.
  destruct (sanitize_subject _) as [safe_subject|e]; [|done].
  destruct (collect_pdf_attachments self m (walk m) [] fs) as [[atts|e] fs1]; [|done].
  destruct (merge_block self m atts fs1) as [[[merged|e] paths] fs2]; [|done].
  unfold compose_and_deliver. io_unfold.
  destruct (attach_pdfs m atts merged fs2) as [[pdfs|e] fs3]; [|done].
  destruct (extract_body (walk m) "" "plain") as [[body body_type]|e]; [|done].
  unfold deliver. simpl.
  destruct (simulate self); [|destruct (sendmail _)]; intros [= <-]; by eexists.
Qed.

(** X5: when the subject of the message is absent or a string, the file
    name of every part can be read and no part is counted as a PDF
    attachment, nothing is attached but the body, even if the message has
    [application/pdf] parts, and no file is written or removed. *)
Theorem no_counted_pdf_body_only self m fs body body_type :
  subject_is_str m = true ->
  forallb filename_readable (walk m) = true ->
  existsb counted_as_pdf (walk m) = false ->
  extract_body (walk m) "" "plain" = Ok (body, body_type) ->
  relay_email self m fs
  = (deliver self (outbound_message self m (attach_body body body_type)), fs).
Proof.
  intros [safe_subject Hsubject]%sanitize_subject_str Hread Hnone Hbody.
  unfold relay_email, except_return_None, relay_email_body. io_unfold.
  rewrite Hsubject. rewrite collect_pdf_attachments_nothing by done.
  unfold merge_block, merge_attempt, compose_and_deliver. simpl. io_unfold.
  by rewrite Hbody.
Qed.

Lemma counted_filename part :
  counted_as_pdf part = true ->
  exists name, get_filename part = Some name /\ Str.truthy name = true.
Proof.
  unfold counted_as_pdf. intros [_ Hname]%andb_true_iff.
  destruct (get_filename part) as [name|]; [|done].
  apply andb_true_iff in Hname as [Hname _]. by exists name.
Qed.

Lemma attach_individual_consistent parts :
  forallb part_decodes parts = true ->
  (forall part, part ∈ parts -> counted_as_pdf part = is_application_pdf part) ->
  exists pdfs,
    attach_individual parts = Ok pdfs
    /\ Forall2 (fun part pdf =>
                  exists data name,
                    get_payload part = Ok (Some data)
                    /\ get_filename part = Some name
                    /\ pdf = MIMEApplication data name)
         (List.filter counted_as_pdf parts) pdfs.
Proof.
  induction parts as [|p parts IH]; intros Hdec Hsame; simpl; [by eauto|].
  simpl in Hdec. apply andb_true_iff in Hdec as [Hp Hdec].
  destruct IH as (pdfs & Hpdfs & Hall); [done|by intros; apply Hsame; right|].
  fold (is_application_pdf p). rewrite (Hsame p) by left.
  destruct (is_application_pdf p) eqn:Hpdf; [|by eauto].
  destruct (decodable_application_pdf p Hp Hpdf) as [data Hdata].
  destruct (counted_filename p) as (name & Hname & Htruthy);
    [by rewrite (Hsame p) by left|].
  rewrite (get_filename_Some _ _ Hname), Hdata, Hpdfs. simpl. rewrite Htruthy.
  eexists. split; [done|]. constructor; [by eauto|done].
Qed.

(** X6: when every part decodes and the parts counted as PDF attachments are
    exactly the [application/pdf] parts, attaching one by one gives one
    attachment per counted part, in order, with the payload and the file name
    of its part; there are as many as [pdf_attachments] has entries. *)
Theorem consistent_parts_attached_one_by_one self m fs pdf_attachments fs' :
  decodable m = true ->
  (forall part, part ∈ walk m -> counted_as_pdf part = is_application_pdf part) ->
  collect_pdf_attachments self m (walk m) [] fs = (Ok pdf_attachments, fs') ->
  exists pdfs,
    attach_individual (walk m) = Ok pdfs
    /\ length pdfs = length pdf_attachments
    /\ Forall2 (fun part pdf =>
                  exists data name,
                    get_payload part = Ok (Some data)
                    /\ get_filename part = Some name
                    /\ pdf = MIMEApplication data name)
         (List.filter counted_as_pdf (walk m)) pdfs.
Proof.
  intros Hdec Hsame Hcollect.
  destruct (attach_individual_consistent (walk m) Hdec Hsame) as (pdfs & Hpdfs & Hall).
  apply collect_pdf_attachments_payloads in Hcollect as (new & -> & Hatts & _).
  exists pdfs. split; [done|]. split; [|done]. simpl.
  apply Forall2_length in Hall, Hatts. congruence.
Qed.

End Attachments.

(** ** Paths *)

Lemma append_assoc (a b c : string) : (a +:+ b) +:+ c = a +:+ b +:+ c.
Proof.
  induction a as [|x a IH]; [done|].
  change (String x ((a +:+ b) +:+ c) = String x (a +:+ b +:+ c)). by f_equal.
Qed.

Lemma truthy_append (a b : string) : Str.truthy b = true -> Str.truthy (a +:+ b) = true.
Proof. by destruct a. Qed.

Lemma endswith_split (s suffix : string) :
  Str.endswith s suffix = true -> exists a, s = a +:+ suffix.
Proof.
  induction s as [|c s IH]; cbn [Str.endswith].
  - rewrite orb_false_r. intros ->%String.eqb_eq. by exists "".
  - intros [->%String.eqb_eq|[a ->]%IH]%orb_true_iff; [by exists ""|].
    by exists (String c a).
Qed.

Lemma basename_after_slash (a f : string) : basename (a +:+ "/" +:+ f) = basename f.
Proof.
  induction a as [|c a IH].
  { change ("" +:+ "/" +:+ f) with (String "/" f). cbn [basename].
    assert (Str.contains "/" (String "/" f) = true) as ->; [|done].
    apply contains_spec. by exists "", f. }
  change (String c a +:+ "/" +:+ f) with (String c (a +:+ "/" +:+ f)).
  cbn [basename].
  assert (Str.contains "/" (String c (a +:+ "/" +:+ f)) = true) as ->; [|done].
  apply contains_spec. by exists (String c a), f.
Qed.

Lemma basename_no_slash (f : string) : Str.contains "/" f = false -> basename f = f.
Proof. intros Hf. destruct f; [done|]. cbn [basename]. by rewrite Hf. Qed.

Lemma basename_path_join (d f : string) : basename (path_join d f) = basename f.
Proof.
  unfold path_join. destruct (String.prefix "/" f); [done|].
  destruct (negb (Str.truthy d) || Str.endswith d "/") eqn:Hd.
  - apply orb_true_iff in Hd as [Hd|[a ->]%endswith_split]; [by destruct d|].
    rewrite append_assoc. apply basename_after_slash.
  - apply basename_after_slash.
Qed.

Lemma truthy_path_join (d f : string) :
  Str.truthy f = true -> Str.truthy (path_join d f) = true.
Proof.
  intros Hf. unfold path_join. destruct (String.prefix "/" f); [done|].
  destruct (_ || _); [by apply truthy_append|].
  apply truthy_append. by destruct f.
Qed.

(** ** What [merge_pdfs] reads and writes *)

Section MergeFiles.
Context `{Collaborators}.
Implicit Types (fs : gmap string (list Byte.byte)).

Lemma for_each_read_file_ok order sources fs :
  Forall2 (fun p b => fs !! p = Some b) order sources ->
  for_each read_file order fs = (Ok sources, fs).
Proof.
  induction 1 as [|p b order sources Hp _ IH]; simpl; [done|].
  io_unfold. unfold read_file at 1. by rewrite Hp, IH.
Qed.

Lemma for_each_read_file_missing order p fs :
  p ∈ order -> fs !! p = None ->
  for_each read_file order fs = (Raise FileNotFoundError, fs).
Proof.
  intros Hin Hp. induction order as [|q order IH]; [by apply elem_of_nil in Hin|].
  simpl. io_unfold. unfold read_file at 1.
  destruct (fs !! q) as [b|] eqn:Hq; [|done].
  apply elem_of_cons in Hin as [->|Hin]; [congruence|]. by rewrite IH.
Qed.

(** X7: when the decision is to merge, every source of the order is a file,
    the merger accepts their contents, taken in that order, and the path made
    of [temp_merge_dir] and the output file name can be opened for writing,
    [merge_pdfs] writes the merged bytes to that path, returns it and changes
    no other file. *)
Theorem merge_pdfs_writes_merged_file inv paths fns order out sources merged fs :
  merge_plan inv paths fns = Ok (Some (order, out)) ->
  Forall2 (fun p b => fs !! p = Some b) order sources ->
  PdfMerger sources = Ok merged ->
  open_for_writing fs (path_join temp_merge_dir out) = Ok tt ->
  merge_pdfs inv paths fns fs
  = (Some (path_join temp_merge_dir out),
     <[path_join temp_merge_dir out := merged]> fs).
Proof.
  intros Hplan Hsources Hmerged Hopen.
  unfold merge_pdfs, except_return_None. rewrite merge_pdfs_body_plan, Hplan.
  unfold merge_execute. io_unfold. simpl.
  rewrite (for_each_read_file_ok _ _ _ Hsources), Hmerged.
  unfold write_file. by rewrite Hopen.
Qed.


(** X9: when a source of the order is not a file, the merger is not run and
    [merge_pdfs] returns [None]. *)
Theorem merge_pdfs_missing_source inv paths fns order out p fs :
  merge_plan inv paths fns = Ok (Some (order, out)) ->
  p ∈ order ->
  fs !! p = None ->
  merge_pdfs inv paths fns fs = (None, fs).
Proof.
  intros Hplan Hin Hp.
  unfold merge_pdfs, except_return_None. rewrite merge_pdfs_body_plan, Hplan.
  unfold merge_execute. io_unfold. simpl.
  by rewrite (for_each_read_file_missing _ _ _ Hin Hp).
Qed.

(** X10: the merged file is attached alone, under the base name of the output
    file name: the output file name itself when it has no slash, what follows
    its last slash otherwise. *)
Theorem merged_file_attached_under_base_name
    inv paths fns order out fs path fs' m a atts :
  merge_plan inv paths fns = Ok (Some (order, out)) ->
  Str.truthy out = true ->
  merge_pdfs inv paths fns fs = (Some path, fs') ->
  (exists merged,
     attach_pdfs m (a :: atts) (Some path) fs'
     = (Ok [MIMEApplication merged (basename out)], fs'))
  /\ (Str.contains "/" out = false -> basename out = out).
Proof.
  intros Hplan Hout. unfold merge_pdfs, except_return_None.
  rewrite merge_pdfs_body_plan, Hplan. unfold merge_execute. io_unfold. simpl.
  destruct (for_each_read_file order fs) as [r ->].
  destruct r as [sources|e]; [|done].
  destruct (PdfMerger sources) as [merged|e]; [|done].
  unfold write_file. destruct (open_for_writing fs _); [|done].
  intros [= <- <-]. split; [|apply basename_no_slash].
  exists merged. unfold attach_pdfs. rewrite truthy_path_join by done.
  io_unfold. unfold read_file. by rewrite lookup_insert_eq, basename_path_join.
Qed.

End MergeFiles.

(** ** More on the merge decision *)

(** With as many sources as file names the decision never raises: it is
    [None], or the sources at a permutation of the positions with the file
    name of one of the candidates. *)
Lemma merge_plan_cases inv paths fns :
  length paths = length fns ->
  merge_plan inv paths fns = Ok None
  \/ exists idxs out,
       idxs ≡ₚ seq 0 (length fns) /\ out ∈ fns
       /\ merge_plan inv paths fns = Ok (Some ((fun i => nth i paths "") <$> idxs, out)).
Proof.
  intros Hlen.
  assert (forall k, k < length fns -> nth k fns "" ∈ fns) as Hnth.
  { intros k Hk. apply list_elem_of_lookup. exists k.
    rewrite nth_lookup. by destruct (lookup_lt_is_Some_2 fns k Hk) as [x ->]. }
  destruct (decide (length fns <= 1)) as [Hshort|Hlong].
  { left. apply merge_plan_short. lia. }
  destruct (invoice_pdf_indices inv fns) as [|k [|k' l]] eqn:Hsel.
  - destruct (merge_plan_all_sorted inv fns) as (idxs & Hperm & _ & Hplan);
      [lia|done|].
    right. exists idxs, (nth (hd 0 idxs) fns ""). split; [done|]. split; [|by apply Hplan].
    apply Hnth. destruct idxs as [|i idxs].
    + apply Permutation_length in Hperm. rewrite length_seq in Hperm. simpl in Hperm. lia.
    + assert (i ∈ seq 0 (length fns)) as Hi by (rewrite <- Hperm; left).
      apply elem_of_seq in Hi. simpl. lia.
  - assert (k < length fns) as Hk.
    { assert (k ∈ invoice_pdf_indices inv fns) as Hin by (rewrite Hsel; left).
      rewrite invoice_pdf_indices_select in Hin. apply select_bound in Hin. lia. }
    destruct (merge_plan_invoice_first inv fns k) as (rest & Hperm & _ & Hplan);
      [lia|done|].
    right. exists (k :: rest), (nth k fns ""). split; [|split; [by apply Hnth|by apply Hplan]].
    rewrite Hperm. by apply cons_filter_seq_ne.
  - left. apply merge_plan_ambiguous; [|rewrite Hsel; simpl; lia].
    intros ->. by rewrite invoice_pdf_indices_select, select_none in Hsel
      by (by apply Forall_forall).
Qed.

(** X11: with as many sources as file names, a decision to merge orders a
    permutation of the sources, so that each source is merged once, and names
    the output after one of the candidates. *)
Theorem merge_order_is_permutation inv paths fns order out :
  length paths = length fns ->
  merge_plan inv paths fns = Ok (Some (order, out)) ->
  order ≡ₚ paths /\ out ∈ fns.
Proof.
  intros Hlen Hplan.
  destruct (merge_plan_cases inv paths fns Hlen) as [Hnone|(idxs & out' & Hperm & Hout & Heq)];
    [congruence|].
  rewrite Heq in Hplan. injection Hplan as <- <-. split; [|done].
  rewrite Hperm, <- Hlen. apply reflexive_eq, fmap_nth_all.
Qed.

Lemma ltb_irrefl (a : string) : String.ltb a a = false.
Proof. unfold String.ltb. by rewrite string_compare_refl. Qed.

Section Stability.
Context {A : Type}.
Implicit Types (x : string * A) (l : list (string * A)).

Lemma insert_by_filter (k : string) x l :
  filter (fun y => y.1 = k) (insert_by x l) = filter (fun y => y.1 = k) (x :: l).
Proof.
  induction l as [|y l IH]; [done|]. simpl.
  destruct (String.ltb y.1 x.1) eqn:Hlt; [|done].
  assert (y.1 <> x.1) as Hne by (intros Heq; by rewrite Heq, ltb_irrefl in Hlt).
  rewrite (filter_cons _ y), IH, !(filter_cons _ x), (filter_cons _ y).
  repeat case_decide; congruence.
Qed.

Lemma sort_decorated_stable (k : string) l :
  filter (fun y => y.1 = k) (sort_decorated l) = filter (fun y => y.1 = k) l.
Proof.
  induction l as [|x l IH]; [done|]. simpl.
  by rewrite insert_by_filter, !filter_cons, IH.
Qed.

Lemma filter_decorated (f : A -> string) (k : string) l :
  (forall p, p ∈ l -> p.1 = f p.2) ->
  filter (fun a => f a = k) l.*2 = (filter (fun y => y.1 = k) l).*2.
Proof.
  induction l as [|p l IH]; intros Hl; [done|].
  rewrite fmap_cons, !filter_cons, IH by (intros; apply Hl; by right).
  rewrite <- (Hl p) by left. by case_decide.
Qed.

(** [sorted] keeps the elements with equal keys in their order. *)
Lemma sorted_stable (key : A -> outcome string) (f : A -> string) (l l' : list A) k :
  (forall a, a ∈ l -> key a = Ok (f a)) ->
  sorted key l = Ok l' ->
  filter (fun a => f a = k) l' = filter (fun a => f a = k) l.
Proof.
  intros Hkey. unfold sorted. rewrite (comprehension_total _ f) by done. simpl.
  intros [= <-].
  assert (forall p, p ∈ zip (f <$> l) l -> p.1 = f p.2) as Hzip.
  { intros p Hp. apply list_elem_of_lookup in Hp as [i Hi].
    apply lookup_zip_with_Some in Hi as (s & a & -> & Hs & Ha).
    rewrite list_lookup_fmap, Ha in Hs. simpl in Hs. by injection Hs as <-. }
  rewrite (filter_decorated f)
    by (intros p Hp; apply Hzip; by rewrite <- sort_decorated_perm).
  rewrite sort_decorated_stable.
  rewrite <- (filter_decorated f k (zip (f <$> l) l)) by done.
  by rewrite snd_zip by (by rewrite length_fmap).
Qed.
End Stability.

Lemma filter_fmap {A B} (f : A -> B) (P : B -> Prop) `{!forall b, Decision (P b)}
    (l : list A) :
  filter P (f <$> l) = f <$> filter (fun a => P (f a)) l.
Proof.
  induction l as [|a l IH]; [done|].
  rewrite fmap_cons, !filter_cons, IH. by case_decide.
Qed.

Lemma merge_plan_no_invoice_sorted inv paths fns idxs :
  2 <= length fns -> length paths = length fns ->
  invoice_pdf_indices inv fns = [] ->
  sorted (index fns) (seq 0 (length fns)) = Ok idxs ->
  merge_plan inv paths fns
  = Ok (Some ((fun i => nth i paths "") <$> idxs, nth (hd 0 idxs) fns "")).
Proof.
  intros Hn Hlen Hnone Hsort.
  assert (Forall (fun i => i < length fns) (seq 0 (length fns))) as Hall.
  { apply Forall_forall. intros i Hi%elem_of_seq. lia. }
  destruct (sorted_by_filename fns _ Hall) as (idxs' & Hsort' & Hperm & _).
  rewrite Hsort in Hsort'. injection Hsort' as <-.
  unfold merge_plan. rewrite Hlen, Hnone.
  destruct (Nat.leb_spec (length fns) 1); [lia|].
  rewrite andb_false_r. rewrite Hsort. simpl.
  assert (Forall (fun i => i < length fns) idxs) as Hidxs by (by rewrite Hperm).
  rewrite (comprehension_index paths "") by (by rewrite Hlen). simpl.
  destruct idxs as [|i idxs].
  { apply Permutation_length in Hperm. rewrite length_seq in Hperm. simpl in Hperm. lia. }
  simpl. apply Forall_cons in Hidxs as [Hi _].
  by rewrite (index_nth fns i "") by done.
Qed.

(** X12: when no file name contains the marker, candidates with the same
    file name are merged in the order in which they were given. *)
Theorem equal_names_keep_their_order (inv : string) (cs : list (string * string)) :
  2 <= length cs ->
  inv = "" \/ (forall x, x ∈ cs -> ~ Str.substring_of inv x.2) ->
  exists sorted_cs out,
    merge_plan inv cs.*1 cs.*2 = Ok (Some (sorted_cs.*1, out))
    /\ forall name,
         filter (fun c : string * string => c.2 = name) sorted_cs
         = filter (fun c : string * string => c.2 = name) cs.
Proof.
  intros Hlen Hno.
  assert (Forall (fun i => i < length cs.*2) (seq 0 (length cs.*2))) as Hall.
  { apply Forall_forall. intros i Hi%elem_of_seq. lia. }
  destruct (sorted_by_filename cs.*2 _ Hall) as (idxs & Hsort & _ & _).
  exists ((fun i => nth i cs ("", "")) <$> idxs), (nth (hd 0 idxs) cs.*2 "").
  split.
  - rewrite <- paths_of_positions.
    apply merge_plan_no_invoice_sorted; [by rewrite length_fmap|by rewrite !length_fmap| |done].
    rewrite invoice_pdf_indices_select. by apply no_substring_select.
  - intros name. rewrite filter_fmap.
    rewrite (list_filter_iff _ (fun i => nth i cs.*2 "" = name))
      by (intros i; by rewrite nth_filename).
    assert (forall i, i ∈ seq 0 (length cs.*2) ->
                      index cs.*2 i = Ok (nth i cs.*2 "")) as Hkey
      by (intros i Hi%elem_of_seq; apply index_nth; lia).
    rewrite (sorted_stable _ _ _ _ name Hkey Hsort).
    rewrite (list_filter_iff (fun i => nth i cs.*2 "" = name)
               (fun i => (nth i cs ("", "")).2 = name))
      by (intros i; by rewrite nth_filename).
    rewrite length_fmap.
    transitivity (filter (fun c : string * string => c.2 = name)
                    ((fun i => nth i cs ("", "")) <$> seq 0 (length cs)));
      [symmetry; apply filter_fmap|by rewrite fmap_nth_all].
Qed.

(** ** More on the temporary sources *)

Section Sources.
Context `{Collaborators}.
Implicit Types (fs : gmap string (list Byte.byte)) (p : string).

Lemma materialize_lists parts paths names fs r paths' names' fs' :
  materialize parts paths names fs = (r, (paths', names'), fs') ->
  length paths = length names ->
  Forall (fun name => Str.truthy name = true) names ->
  length paths' = length names'
  /\ Forall (fun name => Str.truthy name = true) names'.
Proof.
  revert paths names fs. induction parts as [|part parts IH]; intros paths names fs.
  { by intros [= <- <- <- <-]. }
  cbn [materialize]. destruct (_ && _); [|apply IH].
  destruct (part_get_filename part) as [[name|]|e];
    [|apply IH|by intros [= <- <- <- <-]].
  destruct (Str.truthy name) eqn:Hname; [|apply IH].
  destruct (get_payload part ≫= as_bytes TypeError) as [data|e].
  - intros Hmat Hlen Hnames. eapply IH; [exact Hmat| |].
    + rewrite !length_app. simpl. lia.
    + apply Forall_app. split; [done|]. by constructor.
  - by intros [= <- <- <- <-].
Qed.

(** X13: the second walk of [relay_email] keeps [pdf_paths] and
    [pdf_filenames] of the same length and every file name non-empty, so the
    merge decision taken on them never raises. *)
Theorem relay_merge_decision_never_raises self m fs r pdf_paths pdf_filenames fs' :
  materialize (walk m) [] [] fs = (r, (pdf_paths, pdf_filenames), fs') ->
  length pdf_paths = length pdf_filenames
  /\ Forall (fun name => Str.truthy name = true) pdf_filenames
  /\ exists plan, merge_plan (invoice_string self) pdf_paths pdf_filenames = Ok plan.
Proof.
  intros Hmat.
  destruct (materialize_lists _ _ _ _ _ _ _ _ Hmat eq_refl) as [Hlen Hnames];
    [by constructor|].
  split; [done|]. split; [done|].
  destruct (merge_plan_cases (invoice_string self) pdf_paths pdf_filenames Hlen)
    as [->|(idxs & out & _ & _ & ->)]; by eexists.
Qed.

Lemma unlink_all_other paths fs p :
  p ∉ paths -> unlink_all paths fs !! p = fs !! p.
Proof.
  revert fs. induction paths as [|q paths IH]; intros fs Hnot; [done|].
  apply not_elem_of_cons in Hnot as [Hne Hnot].
  rewrite unlink_all_cons, IH by done. by apply lookup_delete_ne.
Qed.

(** X14: removing the temporary sources removes exactly the listed paths:
    a listed path is no file afterwards, and every other path keeps what it
    had. *)
Theorem unlink_all_lookup paths fs p :
  unlink_all paths fs !! p = if decide (p ∈ paths) then None else fs !! p.
Proof.
  destruct (decide (p ∈ paths)) as [Hin|Hnot].
  - by apply unlink_all_gone.
  - by apply unlink_all_other.
Qed.




End Sources.

(** ** File names *)




(** ** Instances of the further properties *)

Lemma first_plain_text_is_the_body_witness :
  extract_body (H := Sample.collaborators) (walk Sample.html_then_plain) "" "plain"
  = Ok ("hi", "html")
  /\ extract_body (H := Sample.collaborators) (walk Sample.plain_then_html) "" "plain"
     = Ok ("hi", "plain").
Proof.
  split.
  - apply (first_plain_text_is_the_body (H := Sample.collaborators)
             [Container Sample.mixed
                [Leaf (Sample.part "text" "html" None) (Ok (Sample.data "<p>hi</p>"));
                 Leaf (Sample.part "text" "plain" None) (Ok (Sample.data "hi"))];
              Leaf (Sample.part "text" "html" None) (Ok (Sample.data "<p>hi</p>"))]
             (Sample.part "text" "plain" None) (Sample.data "hi") []);
      reflexivity.
  - apply (first_plain_text_is_the_body (H := Sample.collaborators)
             [Container Sample.mixed
                [Leaf (Sample.part "text" "plain" None) (Ok (Sample.data "hi"));
                 Leaf (Sample.part "text" "html" None) (Ok (Sample.data "<p>hi</p>"))]]
             (Sample.part "text" "plain" None) (Sample.data "hi")
             [Leaf (Sample.part "text" "html" None) (Ok (Sample.data "<p>hi</p>"))]);
      reflexivity.
Defined.

Lemma html_is_the_fallback_witness :
  extract_body (H := Sample.collaborators) (walk Sample.inline_pdf_and_html) "" "plain"
  = Ok ("<b>hello</b>", "html").
Proof.
  apply (html_is_the_fallback (H := Sample.collaborators)
           (take 2 (walk Sample.inline_pdf_and_html))
           (Sample.part "text" "html" None) (Sample.data "<b>hello</b>") []);
    reflexivity.
Defined.

Lemma pdf_attachments_are_the_counted_parts_witness :
  Forall2 (fun part att => get_payload part = Ok att)
    (List.filter counted_as_pdf (walk Sample.invoice_and_note))
    [Some (Sample.data "%PDF-N"); Some (Sample.data "%PDF-I")].
Proof.
  apply (pdf_attachments_are_the_counted_parts (H := Sample.collaborators)
           Sample.self Sample.invoice_and_note
           (∅ : gmap string (list Byte.byte))
           [Some (Sample.data "%PDF-N"); Some (Sample.data "%PDF-I")] ∅).
  reflexivity.
Defined.

Lemma relayed_message_headers_witness :
  exists payload,
    {| msg_From := "billing@example.org";
       msg_To := "archive@example.org";
       msg_Subject := "March";
       msg_X_Original_Sender := "sender@example.org";
       msg_payload := [MIMEApplication (Sample.data "%PDF-I%PDF-N") "invoice_7.pdf"] |}
    = outbound_message Sample.self Sample.invoice_and_note payload.
Proof.
  apply (relayed_message_headers (H := Sample.collaborators) Sample.self
           Sample.invoice_and_note ∅).
  vm_compute. reflexivity.
Defined.

Lemma no_counted_pdf_body_only_witness :
  (relay_email (H := Sample.collaborators) Sample.self Sample.inline_pdf_and_html ∅).1
  = Some {| msg_From := "billing@example.org";
            msg_To := "archive@example.org";
            msg_Subject := "Relayed Email";
            msg_X_Original_Sender := "Unknown Sender";
            msg_payload := [MIMEText "<b>hello</b>" "html"] |}.
Proof.
  rewrite (no_counted_pdf_body_only (H := Sample.collaborators) Sample.self
             Sample.inline_pdf_and_html ∅ "<b>hello</b>" "html");
    reflexivity.
Defined.

Lemma consistent_parts_attached_one_by_one_witness :
  exists pdfs,
    attach_individual (walk Sample.corrupt_second) = Ok pdfs
    /\ length pdfs = 2
    /\ Forall2 (fun part pdf =>
                  exists data name,
                    get_payload part = Ok (Some data)
                    /\ get_filename part = Some name
                    /\ pdf = MIMEApplication data name)
         (List.filter counted_as_pdf (walk Sample.corrupt_second)) pdfs.
Proof.
  apply (consistent_parts_attached_one_by_one (H := Sample.collaborators)
           Sample.self Sample.corrupt_second ∅ [Some (Sample.data "%PDF-B"); Some []] ∅).
  - reflexivity.
  - intros part Hin. apply list_elem_of_In in Hin. simpl in Hin.
    destruct Hin as [<-|[<-|[<-|[<-|[]]]]]; reflexivity.
  - reflexivity.
Defined.

Lemma merge_pdfs_writes_merged_file_witness :
  merge_pdfs (H := Sample.collaborators) "invoice" ["/tmp/1"; "/tmp/2"]
    ["note.pdf"; "invoice_7.pdf"]
    (<["/tmp/1" := Sample.data "%PDF-N"]> (<["/tmp/2" := Sample.data "%PDF-I"]> ∅))
  = (Some "/app/temp_merged_pdfs/invoice_7.pdf",
     <["/app/temp_merged_pdfs/invoice_7.pdf" := Sample.data "%PDF-I%PDF-N"]>
       (<["/tmp/1" := Sample.data "%PDF-N"]> (<["/tmp/2" := Sample.data "%PDF-I"]> ∅))).
Proof.
  apply (merge_pdfs_writes_merged_file (H := Sample.collaborators) "invoice"
           ["/tmp/1"; "/tmp/2"] ["note.pdf"; "invoice_7.pdf"]
           ["/tmp/2"; "/tmp/1"] "invoice_7.pdf"
           [Sample.data "%PDF-I"; Sample.data "%PDF-N"] (Sample.data "%PDF-I%PDF-N")).
  - reflexivity.
  - repeat constructor.
  - reflexivity.
  - reflexivity.
Defined.


Lemma merge_pdfs_missing_source_witness :
  merge_pdfs (H := Sample.collaborators) "" ["/tmp/1"; "/tmp/2"] ["b.pdf"; "a.pdf"]
    (<["/tmp/1" := Sample.data "%PDF-B"]> ∅)
  = (None, <["/tmp/1" := Sample.data "%PDF-B"]> ∅).
Proof.
  apply (merge_pdfs_missing_source (H := Sample.collaborators) ""
           ["/tmp/1"; "/tmp/2"] ["b.pdf"; "a.pdf"] ["/tmp/2"; "/tmp/1"] "a.pdf" "/tmp/2").
  - reflexivity.
  - left.
  - reflexivity.
Defined.

Lemma merged_file_attached_under_base_name_witness :
  let fs := <["/tmp/1" := Sample.data "%PDF-N"]>
              (<["/tmp/2" := Sample.data "%PDF-I"]> (∅ : gmap string (list Byte.byte))) in
  let result :=
    merge_pdfs (H := Sample.collaborators) "invoice" ["/tmp/1"; "/tmp/2"]
      ["note.pdf"; "../invoice_7.pdf"] fs in
  result.1 = Some "/app/temp_merged_pdfs/../invoice_7.pdf"
  /\ exists merged,
       attach_pdfs Sample.invoice_and_note [None; None] result.1 result.2
       = (Ok [MIMEApplication merged "invoice_7.pdf"], result.2).
Proof.
  intros fs result. split; [reflexivity|].
  destruct (merged_file_attached_under_base_name (H := Sample.collaborators)
              "invoice" ["/tmp/1"; "/tmp/2"] ["note.pdf"; "../invoice_7.pdf"]
              ["/tmp/2"; "/tmp/1"] "../invoice_7.pdf" fs
              "/app/temp_merged_pdfs/../invoice_7.pdf" result.2
              Sample.invoice_and_note None [None]) as [[merged Hattach] _].
  - reflexivity.
  - reflexivity.
  - reflexivity.
  - exists merged. exact Hattach.
Defined.

Lemma merge_order_is_permutation_witness :
  ["/tmp/1"; "/tmp/3"; "/tmp/2"] ≡ₚ ["/tmp/1"; "/tmp/2"; "/tmp/3"]
  /\ "invoice_123.pdf" ∈ ["invoice_123.pdf"; "receipt.pdf"; "note.pdf"].
Proof.
  apply (merge_order_is_permutation "invoice" ["/tmp/1"; "/tmp/2"; "/tmp/3"]
           ["invoice_123.pdf"; "receipt.pdf"; "note.pdf"]).
  - reflexivity.
  - reflexivity.
Defined.

Lemma equal_names_keep_their_order_witness :
  exists sorted_cs out,
    merge_plan "" ["/tmp/1"; "/tmp/2"; "/tmp/3"] ["b.pdf"; "a.pdf"; "b.pdf"]
    = Ok (Some (sorted_cs.*1, out))
    /\ forall name,
         filter (fun c : string * string => c.2 = name) sorted_cs
         = filter (fun c : string * string => c.2 = name)
             [("/tmp/1", "b.pdf"); ("/tmp/2", "a.pdf"); ("/tmp/3", "b.pdf")].
Proof.
  apply (equal_names_keep_their_order ""
           [("/tmp/1", "b.pdf"); ("/tmp/2", "a.pdf"); ("/tmp/3", "b.pdf")]).
  - simpl. lia.
  - left. reflexivity.
Defined.

Lemma relay_merge_decision_never_raises_witness :
  exists plan,
    merge_plan "invoice" ["/tmp/tmp0.pdf"; "/tmp/tmp1.pdf"] ["note.pdf"; "invoice_7.pdf"]
    = Ok plan.
Proof.
  destruct (relay_merge_decision_never_raises (H := Sample.collaborators) Sample.self
              Sample.invoice_and_note ∅ (Ok tt)
              ["/tmp/tmp0.pdf"; "/tmp/tmp1.pdf"] ["note.pdf"; "invoice_7.pdf"]
              (materialize (H := Sample.collaborators)
                 (walk Sample.invoice_and_note) [] [] ∅).2) as (_ & _ & Hplan).
  - vm_compute. reflexivity.
  - exact Hplan.
Defined.



(** ** From the parts to the merged attachment *)

Section EndToEnd.
Context `{Collaborators}.
Implicit Types (fs : gmap string (list Byte.byte)).

Lemma materialize_source part parts paths names fs :
  is_merge_source part = true ->
  materialize (part :: parts) paths names fs
  = let temp_pdf := NamedTemporaryFile fs in
    match payload ← get_payload part; as_bytes TypeError payload with
    | Ok data =>
        materialize parts (paths ++ [temp_pdf]) (names ++ [default "" (get_filename part)])
          (<[temp_pdf := data]> (<[temp_pdf := []]> fs))
    | Raise e => (Raise e, (paths, names), <[temp_pdf := []]> fs)
    end.
Proof.
  unfold is_merge_source, is_application_pdf, get_filename. cbn [materialize].
  intros [-> Hname]%andb_true_iff.
  destruct (part_get_filename part) as [[name|]|e]; [|done..].
  by rewrite Hname.
Qed.

Lemma materialize_not_source part parts paths names fs :
  is_merge_source part = false ->
  materialize (part :: parts) paths names fs = materialize parts paths names fs
  \/ exists e, materialize (part :: parts) paths names fs = (Raise e, (paths, names), fs).
Proof.
  unfold is_merge_source, is_application_pdf, get_filename. cbn [materialize].
  destruct (String.eqb _ "application" && String.eqb _ "pdf"); [|by left]. simpl.
  destruct (part_get_filename part) as [[name|]|e]; [|by left|by eauto].
  intros ->. by left.
Qed.

Lemma materialize_written parts paths names fs u paths' names' fs' :
  (forall fs, fs !! NamedTemporaryFile fs = None) ->
  materialize parts paths names fs = (Ok u, (paths', names'), fs') ->
  exists more more_names,
    paths' = paths ++ more /\ names' = names ++ more_names
    /\ NoDup more
    /\ Forall (fun p => fs !! p = None) more
    /\ Forall2 (fun path part =>
                  exists data, get_payload part = Ok (Some data) /\ fs' !! path = Some data)
         more (List.filter is_merge_source parts)
    /\ Forall2 (fun name part => get_filename part = Some name)
         more_names (List.filter is_merge_source parts)
    /\ (forall p, is_Some (fs !! p) -> fs' !! p = fs !! p).
Proof.
  intros Hfresh. revert paths names fs.
  induction parts as [|part parts IH]; intros paths names fs.
  { intros [= _ <- <- <-]. exists [], []. rewrite !app_nil_r.
    split; [done|]. split; [done|]. split; [apply NoDup_nil_2|].
    split; [constructor|]. split; [constructor|]. split; [constructor|done]. }
  cbn [List.filter]. destruct (is_merge_source part) eqn:Hsrc; cycle 1.
  { destruct (materialize_not_source part parts paths names fs Hsrc) as [->|[e ->]];
      [apply IH|done]. }
  rewrite materialize_source by done. simpl.
  destruct (get_payload part) as [[data|]|e] eqn:Hpayload; simpl; [|done..].
  set (t := NamedTemporaryFile fs). rewrite insert_insert_eq.
  intros (more & more_names & -> & -> & Hnodup & Hnew & Hfiles & Hnames & Hkeep)%IH.
  assert (fs !! t = None) as Ht by apply Hfresh.
  assert (t ∉ more) as Hnot.
  { intros Hin. eapply Forall_forall in Hnew; [|exact Hin].
    by rewrite lookup_insert_eq in Hnew. }
  exists (t :: more), (default "" (get_filename part) :: more_names).
  rewrite <- !app_assoc. repeat split; try done.
  - by constructor.
  - constructor; [done|]. eapply Forall_impl; [exact Hnew|].
    intros p Hp. simpl in Hp. destruct (decide (t = p)) as [<-|Hne]; [done|].
    by rewrite lookup_insert_ne in Hp.
  - constructor; [|done]. exists data. split; [done|].
    rewrite Hkeep by (rewrite lookup_insert_eq; eauto). apply lookup_insert_eq.
  - constructor; [|done]. unfold is_merge_source in Hsrc.
    apply andb_true_iff in Hsrc as [_ Hname].
    by destruct (get_filename part).
  - intros p Hp. rewrite Hkeep.
    + apply lookup_insert_ne. intros <-. rewrite Ht in Hp. by destruct Hp.
    + rewrite lookup_insert_is_Some. destruct (decide (t = p)); auto.
Qed.

(** X17: when [NamedTemporaryFile] gives a name that is new in the file
    system, the second walk, if it ends normally, has written one temporary
    file per [application/pdf] part with a file name, in walk order: the
    paths are pairwise different, each file holds the decoded payload of its
    part, [pdf_filenames] holds the file names of these parts, and the files
    that were there before are unchanged. *)
Theorem temporary_sources_hold_the_payloads m fs u pdf_paths pdf_filenames fs' :
  (forall fs, fs !! NamedTemporaryFile fs = None) ->
  materialize (walk m) [] [] fs = (Ok u, (pdf_paths, pdf_filenames), fs') ->
  NoDup pdf_paths
  /\ Forall2 (fun path part =>
                exists data, get_payload part = Ok (Some data) /\ fs' !! path = Some data)
       pdf_paths (List.filter is_merge_source (walk m))
  /\ Forall2 (fun name part => get_filename part = Some name)
       pdf_filenames (List.filter is_merge_source (walk m))
  /\ (forall p, is_Some (fs !! p) -> fs' !! p = fs !! p).
Proof.
  intros Hfresh Hmat.
  by destruct (materialize_written _ _ _ _ _ _ _ _ Hfresh Hmat)
    as (more & more_names & -> & -> & ? & _ & ? & ? & ?).
Qed.

(** X18: when the subject of the message is absent or a string, the first
    walk counts at least two PDF attachments, the decision on the temporary
    sources is to merge, the sources are read back in the decided order, the
    merger accepts them, the path made of [temp_merge_dir] and the output
    file name can be opened for writing and is not one of the temporary
    sources, [relay_email] delivers the message with the merged bytes as its
    only PDF attachment, under the base name of the output file name,
    followed by the body; it leaves the merged file and none of the temporary
    sources. *)
Theorem relay_email_merged self m fs pdf_attachments fs1 pdf_paths pdf_filenames fs2
    order out sources merged body body_type :
  subject_is_str m = true ->
  collect_pdf_attachments self m (walk m) [] fs = (Ok pdf_attachments, fs1) ->
  1 < length pdf_attachments ->
  materialize (walk m) [] [] fs1 = (Ok tt, (pdf_paths, pdf_filenames), fs2) ->
  merge_plan (invoice_string self) pdf_paths pdf_filenames = Ok (Some (order, out)) ->
  Forall2 (fun p b => fs2 !! p = Some b) order sources ->
  PdfMerger sources = Ok merged ->
  open_for_writing fs2 (path_join temp_merge_dir out) = Ok tt ->
  path_join temp_merge_dir out ∉ pdf_paths ->
  extract_body (walk m) "" "plain" = Ok (body, body_type) ->
  relay_email self m fs
  = (deliver self
       (outbound_message self m
          (MIMEApplication merged (basename out) :: attach_body body body_type)),
     unlink_all pdf_paths (<[path_join temp_merge_dir out := merged]> fs2)).
Proof.
  intros [safe_subject Hsubject]%sanitize_subject_str
    Hcollect Hmany Hmat Hplan Hsources Hmerged Hopen Hout Hbody.
  assert (Str.truthy out = true) as Htruthy.
  { destruct (materialize_lists _ _ _ _ _ _ _ _ Hmat eq_refl) as [Hlen Hnames];
      [by constructor|].
    destruct (merge_plan_cases (invoice_string self) pdf_paths pdf_filenames Hlen)
      as [Hnone|(idxs & out' & _ & Hin & Heq)]; [congruence|].
    rewrite Heq in Hplan. injection Hplan as _ <-.
    by eapply Forall_forall in Hnames. }
  unfold relay_email, except_return_None, relay_email_body. io_unfold.
  rewrite Hsubject, Hcollect. unfold merge_block, merge_attempt.
  apply Nat.ltb_lt in Hmany as Hlt. rewrite Hlt, Hmat.
  unfold merge_pdfs, except_return_None. rewrite merge_pdfs_body_plan, Hplan.
  unfold merge_execute. io_unfold. simpl.
  rewrite (for_each_read_file_ok _ _ _ Hsources), Hmerged. unfold write_file.
  rewrite Hopen. unfold compose_and_deliver, attach_pdfs.
  destruct pdf_attachments as [|a atts]; [simpl in Hmany; lia|].
  rewrite truthy_path_join by done. io_unfold. unfold read_file.
  rewrite unlink_all_other, lookup_insert_eq by done.
  by rewrite Hbody, basename_path_join.
Qed.

End EndToEnd.

(** ** [merge_pdfs] with fewer file names than paths *)

Lemma index_cases {A} (l : list A) (j : nat) :
  (exists x, index l j = Ok x /\ j < length l) \/ index l j = Raise IndexError.
Proof.
  unfold index. destruct (l !! j) as [x|] eqn:Hj; [|by right].
  left. exists x. split; [done|]. by apply lookup_lt_Some in Hj.
Qed.

Lemma comprehension_index_raises {A} (l : list A) (idxs : list nat) (i : nat) :
  i ∈ idxs -> length l <= i -> comprehension (index l) idxs = Raise IndexError.
Proof.
  intros Hin Hi. induction idxs as [|j idxs IH]; [by apply elem_of_nil in Hin|].
  cbn [comprehension].
  destruct (index_cases l j) as [(x & -> & Hj)| ->]; [|done]. simpl.
  apply elem_of_cons in Hin as [->|Hin]; [lia|]. by rewrite IH.
Qed.

(** X19: [merge_pdfs] called with at least two paths and fewer file names
    than paths returns [None] without writing, the [IndexError] being caught,
    when there is no file name at all or when exactly one file name contains
    the marker. *)
Theorem merge_pdfs_fewer_names_than_paths (H : Collaborators) inv paths fns
    (fs : gmap string (list Byte.byte)) :
  2 <= length paths ->
  length fns < length paths ->
  fns = [] \/ (exists k, invoice_pdf_indices inv fns = [k]) ->
  merge_plan inv paths fns = Raise IndexError
  /\ merge_pdfs inv paths fns fs = (None, fs).
Proof.
  intros Hn Hshort Hcase.
  assert (merge_plan inv paths fns = Raise IndexError) as Hplan.
  { unfold merge_plan. destruct (Nat.leb_spec (length paths) 1); [lia|].
    destruct Hcase as [->|[k Hk]].
    - simpl. by rewrite andb_false_r.
    - rewrite Hk. rewrite andb_false_r.
      assert (k < length fns) as Hlt.
      { assert (k ∈ invoice_pdf_indices inv fns) as Hin by (rewrite Hk; left).
        rewrite invoice_pdf_indices_select in Hin. apply select_bound in Hin. lia. }
      rewrite (index_nth paths k "") by lia. rewrite (index_nth fns k "") by lia.
      simpl. unfold sorted.
      rewrite (comprehension_index_raises fns _ (length fns)); [done| |lia].
      apply list_elem_of_In, filter_In. split.
      + apply list_elem_of_In, elem_of_seq. lia.
      + apply negb_true_iff, Nat.eqb_neq. lia. }
  split; [done|].
  unfold merge_pdfs, except_return_None. by rewrite merge_pdfs_body_plan, Hplan.
Qed.

Lemma fresh_names_are_new (fs : gmap string (list Byte.byte)) :
  fs !! @NamedTemporaryFile Sample.fresh_collaborators fs = None.
Proof. apply not_elem_of_dom. apply (is_fresh (dom fs)). Qed.

Lemma temporary_sources_hold_the_payloads_witness :
  let result :=
    materialize (H := Sample.fresh_collaborators) (walk Sample.invoice_and_note) [] []
      (<["/srv/keep" := Sample.data "kept"]> ∅) in
  result.1.1 = Ok tt
  /\ NoDup result.1.2.1
  /\ result.1.2.2 = ["note.pdf"; "invoice_7.pdf"]
  /\ result.2 !! "/srv/keep" = Some (Sample.data "kept").
Proof.
  intros result.
  assert (result.1.1 = Ok tt) as Hok by (vm_compute; reflexivity).
  assert (result.1.2.2 = ["note.pdf"; "invoice_7.pdf"]) as Hnames
    by (vm_compute; reflexivity).
  destruct (temporary_sources_hold_the_payloads (H := Sample.fresh_collaborators)
              Sample.invoice_and_note (<["/srv/keep" := Sample.data "kept"]> ∅)
              tt result.1.2.1 result.1.2.2 result.2)
    as (Hnodup & _ & _ & Hkeep).
  - apply fresh_names_are_new.
  - rewrite <- Hok. subst result.
    by destruct (materialize _ _ _ _) as [[r [paths names]] fs'].
  - split; [done|]. split; [done|]. split; [done|].
    rewrite Hkeep by (rewrite lookup_insert_eq; eauto). apply lookup_insert_eq.
Defined.

Lemma relay_email_merged_witness :
  (relay_email (H := Sample.collaborators) Sample.self Sample.invoice_and_note ∅).1
  = Some {| msg_From := "billing@example.org";
            msg_To := "archive@example.org";
            msg_Subject := "March";
            msg_X_Original_Sender := "sender@example.org";
            msg_payload :=
              [MIMEApplication (Sample.data "%PDF-I%PDF-N") "invoice_7.pdf"] |}.
Proof.
  rewrite (relay_email_merged (H := Sample.collaborators) Sample.self
             Sample.invoice_and_note ∅
             [Some (Sample.data "%PDF-N"); Some (Sample.data "%PDF-I")] ∅
             ["/tmp/tmp0.pdf"; "/tmp/tmp1.pdf"] ["note.pdf"; "invoice_7.pdf"]
             (materialize (H := Sample.collaborators)
                (walk Sample.invoice_and_note) [] [] ∅).2
             ["/tmp/tmp1.pdf"; "/tmp/tmp0.pdf"] "invoice_7.pdf"
             [Sample.data "%PDF-I"; Sample.data "%PDF-N"] (Sample.data "%PDF-I%PDF-N")
             "" "plain").
  - reflexivity.
  - reflexivity.
  - reflexivity.
  - simpl. lia.
  - vm_compute. reflexivity.
  - reflexivity.
  - repeat constructor.
  - reflexivity.
  - reflexivity.
  - intros Hin. apply list_elem_of_In in Hin. simpl in Hin.
    destruct Hin as [Heq|[Heq|[]]]; discriminate Heq.
  - reflexivity.
Defined.

Lemma merge_pdfs_fewer_names_than_paths_witness :
  merge_plan "invoice" ["/tmp/1"; "/tmp/2"] [] = Raise IndexError
  /\ merge_pdfs (H := Sample.collaborators) "invoice" ["/tmp/1"; "/tmp/2"] [] ∅ = (None, ∅).
Proof.
  apply (merge_pdfs_fewer_names_than_paths Sample.collaborators "invoice"
           ["/tmp/1"; "/tmp/2"] [] ∅).
  - simpl. lia.
  - simpl. lia.
  - left. reflexivity.
Defined.
